(** * Case-conversion helpers: [toKebabCase], [camelCase], [dotCase], [toCamelCase]

    A shallow embedding of the three string converters of the repository
    ([src/chain_prompt.js], [src/refined_promot.js]) and of the regular
    expressions and [String.prototype] methods they call, followed by the
    properties the specification states about them.

    A JavaScript string is a sequence of UTF-16 code units; none of the
    regular expressions of the sources carries the [u] or [i] flag, so every
    character class below is a set of code units. *)

From Stdlib Require Import List NArith ZArith Bool Lia String Ascii.
Import ListNotations.
Local Open Scope N_scope.
Local Open Scope list_scope.

Set Implicit Arguments.

(* ================================================================== *)
(** ** Code units and strings *)

(** A string value: its UTF-16 code units, in order. *)
Definition jsstring : Type := list N.

(** The code units of an ASCII literal, for writing examples. *)
Definition js (s : string) : jsstring :=
  List.map N_of_ascii (list_ascii_of_string s).

Definition SPACE : N := 32.
Definition HYPHEN : N := 45.
Definition DOT : N := 46.
Definition UNDERSCORE : N := 95.

(** [[a-z]] *)
Definition is_lower (c : N) : bool := (97 <=? c) && (c <=? 122).
(** [[A-Z]] *)
Definition is_upper (c : N) : bool := (65 <=? c) && (c <=? 90).
(** [[0-9]] *)
Definition is_digit (c : N) : bool := (48 <=? c) && (c <=? 57).
(** [[a-zA-Z0-9]] *)
Definition is_alnum (c : N) : bool := is_lower c || is_upper c || is_digit c.

(** [\s], which is also what [trim] strips: ECMAScript's WhiteSpace and
    LineTerminator code points (TAB, LF, VT, FF, CR, SP, NBSP, U+1680,
    U+2000..U+200A, U+2028, U+2029, U+202F, U+205F, U+3000, U+FEFF). *)
Definition is_space (c : N) : bool :=
  ((9 <=? c) && (c <=? 13)) || (c =? 32) || (c =? 160) || (c =? 5760)
  || ((8192 <=? c) && (c <=? 8202)) || (c =? 8232) || (c =? 8233)
  || (c =? 8239) || (c =? 8287) || (c =? 12288) || (c =? 65279).

(** [[_\-]] *)
Definition is_hyphen_underscore (c : N) : bool := (c =? HYPHEN) || (c =? UNDERSCORE).

(** [[-_\s]] *)
Definition is_sep (c : N) : bool := (c =? HYPHEN) || (c =? UNDERSCORE) || is_space c.

Definition is_hyphen (c : N) : bool := c =? HYPHEN.

Definition is_ascii (c : N) : bool := c <? 128.

Definition nonempty (s : jsstring) : bool :=
  match s with [] => false | _ :: _ => true end.

(* ================================================================== *)
(** ** Values *)

(** The values a converter can be called with.  Only the distinctions the
    sources test are kept: [== null], [typeof], and truthiness. *)
Inductive value : Type :=
| VUndefined
| VNull
| VBoolean (b : bool)
| VNumber (n : Z)
| VString (s : jsstring)
| VObject.

Inductive jstype : Type :=
| TUndefined | TObject | TBoolean | TNumber | TString.

Definition typeof (v : value) : jstype :=
  match v with
  | VUndefined => TUndefined
  | VNull => TObject
  | VBoolean _ => TBoolean
  | VNumber _ => TNumber
  | VString _ => TString
  | VObject => TObject
  end.

(** [typeof v === 'string'] *)
Definition is_string (v : value) : bool :=
  match typeof v with TString => true | _ => false end.

(** [v == null] *)
Definition loosely_null (v : value) : bool :=
  match v with VUndefined | VNull => true | _ => false end.

(** [!v] *)
Definition falsy (v : value) : bool :=
  match v with
  | VUndefined | VNull => true
  | VBoolean b => negb b
  | VNumber n => Z.eqb n 0
  | VString s => negb (nonempty s)
  | VObject => false
  end.

(* ================================================================== *)
(** ** [String.prototype] methods and regular-expression passes *)

(** Drop the longest prefix whose units satisfy [p]. *)
Fixpoint strip_start (p : N -> bool) (s : jsstring) : jsstring :=
  match s with
  | [] => []
  | c :: t => if p c then strip_start p t else s
  end.

(** Drop the longest suffix whose units satisfy [p]. *)
Fixpoint strip_end (p : N -> bool) (s : jsstring) : jsstring :=
  match s with
  | [] => []
  | c :: t =>
      match strip_end p t with
      | [] => if p c then [] else [c]
      | t' => c :: t'
      end
  end.

(** [s.trim()] *)
Definition trim (s : jsstring) : jsstring := strip_end is_space (strip_start is_space s).

(** [s.replace(/[p]+/g, ' ')]: every maximal run of units in [p] becomes one
    space.  [in_run] says that the previous unit belonged to the run being
    replaced. *)
Fixpoint replace_runs (p : N -> bool) (in_run : bool) (s : jsstring) : jsstring :=
  match s with
  | [] => []
  | c :: t =>
      if p c
      then (if in_run then replace_runs p true t else SPACE :: replace_runs p true t)
      else c :: replace_runs p false t
  end.

(** [s.split(/[p]+/)]: the pieces between maximal runs of units in [p],
    the empty pieces at either end included; the empty string splits into
    one empty piece.  [cur] is the piece being read. *)
Fixpoint split_go (p : N -> bool) (in_run : bool) (cur : jsstring) (s : jsstring)
  : list jsstring :=
  match s with
  | [] => [cur]
  | c :: t =>
      if p c
      then (if in_run then split_go p true [] t else cur :: split_go p true [] t)
      else split_go p false (cur ++ [c]) t
  end.

Definition split (p : N -> bool) (s : jsstring) : list jsstring := split_go p false [] s.

(** [ws.join(sep)] *)
Fixpoint join (sep : jsstring) (ws : list jsstring) : jsstring :=
  match ws with
  | [] => []
  | [w] => w
  | w :: rest => w ++ sep ++ join sep rest
  end.

(** [s.replace(/[^a-zA-Z0-9]/g, '')] *)
Definition strip_non_alnum (s : jsstring) : jsstring := filter is_alnum s.

(** [s.replace(/([a-z])([A-Z])/g, '$1 $2')]: the scan resumes after the
    uppercase letter of a match. *)
Fixpoint insert_case_boundaries (s : jsstring) : jsstring :=
  match s with
  | [] => []
  | c1 :: t =>
      match t with
      | [] => [c1]
      | c2 :: rest =>
          if is_lower c1 && is_upper c2
          then c1 :: SPACE :: c2 :: insert_case_boundaries rest
          else c1 :: insert_case_boundaries t
      end
  end.

(** [s.replace(/^-+|-+$/g, '')] *)
Definition strip_hyphens (s : jsstring) : jsstring :=
  strip_end is_hyphen (strip_start is_hyphen s).

(** [s.charAt(0)] *)
Definition charAt0 (s : jsstring) : jsstring := firstn 1 s.

(** [s.slice(1)] *)
Definition slice1 (s : jsstring) : jsstring := skipn 1 s.

(** [ws.map((word, index) => f(word, index))] *)
Fixpoint map_indexed (A B : Type) (f : A -> nat -> B) (i : nat) (l : list A) : list B :=
  match l with
  | [] => []
  | x :: t => f x i :: map_indexed f (S i) t
  end.

(* ================================================================== *)
(** ** Case conversion *)

Definition lower_unit (c : N) : N := if is_upper c then c + 32 else c.
Definition upper_unit (c : N) : N := if is_lower c then c - 32 else c.

Definition ascii_lower (s : jsstring) : jsstring := List.map lower_unit s.
Definition ascii_upper (s : jsstring) : jsstring := List.map upper_unit s.

(** [toLowerCase] and [toUpperCase] follow the Unicode case tables of the
    JavaScript engine, which are no part of the repository.  On a string of
    ASCII code units they are the two maps above; on any other string they
    are whatever the engine computes, taken here as a parameter. *)
Class CaseTables : Type := {
  unicode_lower : jsstring -> jsstring;
  unicode_upper : jsstring -> jsstring
}.

Section Converters.
Context {E : CaseTables}.

Definition toLowerCase (s : jsstring) : jsstring :=
  if forallb is_ascii s then ascii_lower s else unicode_lower s.

Definition toUpperCase (s : jsstring) : jsstring :=
  if forallb is_ascii s then ascii_upper s else unicode_upper s.

(* ------------------------------------------------------------------ *)
(** *** [toKebabCase] ([src/chain_prompt.js]) *)

Definition kebab_words (text : jsstring) : list jsstring :=
  let words :=
    split is_space
      (replace_runs is_hyphen_underscore false
         (insert_case_boundaries text)) in
  List.map toLowerCase words.

Definition toKebabCase (text : value) : jsstring :=
  match text with
  | VString s =>
      if negb (is_string text) || falsy text then []
      else strip_hyphens (join [HYPHEN] (filter nonempty (kebab_words s)))
  | _ => []
  end.

(* ------------------------------------------------------------------ *)
(** *** [camelCase] and [dotCase] ([src/refined_promot.js]) *)

(** Lines 40-51 and 175-185: the separator-delimited words of a trimmed,
    non-empty input. *)
Definition filteredWords (trimmed : jsstring) : list jsstring :=
  let trimmed1 := replace_runs is_sep false trimmed in
  let trimmed2 := trim trimmed1 in
  let words := split is_sep trimmed2 in
  filter nonempty words.

(** The callback of [filteredWords.map] in [camelCase]. *)
Definition camel_word (word : jsstring) (index : nat) : jsstring :=
  let cleaned := strip_non_alnum word in
  if (List.length cleaned =? 0)%nat then []
  else if (index =? 0)%nat then toLowerCase (charAt0 cleaned) ++ slice1 cleaned
  else toUpperCase (charAt0 cleaned) ++ toLowerCase (slice1 cleaned).

Definition camelCase (input : value) : jsstring :=
  if loosely_null input then []
  else match input with
       | VString s =>
           let trimmed := trim s in
           if (List.length trimmed =? 0)%nat then []
           else
             let fw := filteredWords trimmed in
             if (List.length fw =? 0)%nat then []
             else
               let processedWords := map_indexed camel_word 0 fw in
               join [] (filter nonempty processedWords)
       | _ => []
       end.

(** The callback of [filteredWords.map] in [dotCase]. *)
Definition dot_word (word : jsstring) : jsstring :=
  toLowerCase (strip_non_alnum word).

Definition dotCase (input : value) : jsstring :=
  if loosely_null input then []
  else match input with
       | VString s =>
           let trimmed := trim s in
           if (List.length trimmed =? 0)%nat then []
           else
             let fw := filteredWords trimmed in
             if (List.length fw =? 0)%nat then []
             else
               let processedWords := List.map dot_word fw in
               join [DOT] (filter nonempty processedWords)
       | _ => []
       end.

End Converters.

(** [toCamelCase] ([src/refined_promot.js], lines 217-219): the body holds
    no statement, so a call completes without a [return] and yields
    [undefined]. *)
Definition toCamelCase (str : value) : value := VUndefined.

(* ------------------------------------------------------------------ *)
(** *** The test table of [camelCase] *)

(** [a === b] on strings. *)
Fixpoint jsstring_eqb (a b : jsstring) : bool :=
  match a, b with
  | [], [] => true
  | x :: a', y :: b' => (x =? y) && jsstring_eqb a' b'
  | _, _ => false
  end.

(** [testCases] ([src/refined_promot.js], lines 79-126): input and expected
    output. *)
Definition testCases : list (value * jsstring) :=
  [ (VString (js "hello world"), js "helloWorld");
    (VString (js "hello-world"), js "helloWorld");
    (VString (js "hello_world"), js "helloWorld");
    (VNull, js "");
    (VUndefined, js "");
    (VString (js ""), js "");
    (VString (js "   "), js "");
    (VString (js "---"), js "");
    (VString (js "___"), js "");
    (VString (js "  hello world  "), js "helloWorld");
    (VString (js "-hello-world-"), js "helloWorld");
    (VString (js "_hello_world_"), js "helloWorld");
    (VString (js "hello--world"), js "helloWorld");
    (VString (js "hello__world"), js "helloWorld");
    (VString (js "hello   world"), js "helloWorld");
    (VString (js "hello-_- world"), js "helloWorld");
    (VString (js "hello123world"), js "hello123world");
    (VString (js "hello 123 world"), js "hello123World");
    (VString (js "test-2-factor"), js "test2Factor");
    (VString (js "hello@world"), js "helloworld");
    (VString (js "hello!world#test"), js "helloworldtest");
    (VString (js "hello@#$%world"), js "helloworld");
    (VString (js "XMLHttpRequest"), js "xmlhttprequest");
    (VString (js "HTTP-request"), js "httprequest");
    (VString (js "hello"), js "hello");
    (VString (js "HELLO"), js "hello");
    (VString (js "some_lengthy-example with-multiple   separators"),
     js "someLengthyExampleWithMultipleSeparators") ].

(** The two counters the test loop updates (lines 130-146). *)
Record tally : Type := { passed : nat; failed : nat }.

Section TestRun.
Context {E : CaseTables}.

(** One turn of the loop of lines 133-146. *)
Definition run_test (t : tally) (tc : value * jsstring) : tally :=
  let result := camelCase (fst tc) in
  if jsstring_eqb result (snd tc)
  then {| passed := S (passed t); failed := failed t |}
  else {| passed := passed t; failed := S (failed t) |}.

Definition run_tests : tally :=
  fold_left run_test testCases {| passed := 0; failed := 0 |}.

(** The inputs of the test cases that fail. *)
Definition failing_inputs : list value :=
  List.map fst
    (filter (fun tc => negb (jsstring_eqb (camelCase (fst tc)) (snd tc))) testCases).

End TestRun.

(** The tables that change ASCII letters only, for running examples. *)
Definition ascii_tables : CaseTables :=
  {| unicode_lower := ascii_lower; unicode_upper := ascii_upper |}.

(* ================================================================== *)
(** ** Style selection, from the specification *)

(** Modelled from the spec: the closed set of case styles.  No source file
    of the repository declares it; each converter is a function of its
    own. *)
Inductive CaseStyle : Type := Kebab | Camel | Pascal | Snake | Dot.

(** Modelled from the spec: the names of the enumerated styles. *)
Definition style_names : list (string * CaseStyle) :=
  [("kebab", Kebab); ("camel", Camel); ("pascal", Pascal);
   ("snake", Snake); ("dot", Dot)]%string.

Fixpoint style_lookup (name : string) (table : list (string * CaseStyle))
  : option CaseStyle :=
  match table with
  | [] => None
  | (n, st) :: rest => if String.eqb name n then Some st else style_lookup name rest
  end.

(** Modelled from the spec: what [format] returns, a string or the
    invalid-argument failure, which carries the rejected name. *)
Inductive format_result : Type :=
| Formatted (out : jsstring)
| InvalidArgument (style : string).

Section SpecFormat.
Context {E : CaseTables}.

(** Modelled from the spec: "first character uppercased and the remainder
    lowercased". *)
Definition capitalize (w : jsstring) : jsstring :=
  toUpperCase (charAt0 w) ++ toLowerCase (slice1 w).

(** Modelled from the spec: the per-style joining and casing rules of
    section 4.2. *)
Definition format_style (st : CaseStyle) (ws : list jsstring) : jsstring :=
  match st with
  | Kebab => join [HYPHEN] (List.map toLowerCase ws)
  | Dot => join [DOT] (List.map toLowerCase ws)
  | Snake => join [UNDERSCORE] (List.map toLowerCase ws)
  | Pascal => join [] (List.map capitalize ws)
  | Camel =>
      match ws with
      | [] => []
      | w :: rest => join [] (toLowerCase w :: List.map capitalize rest)
      end
  end.

(** Modelled from the spec: the entry point [format(words, style)], which no
    source file of the repository defines.  It succeeds for a style of the
    enumerated set and rejects any other name with the invalid-argument
    failure. *)
Definition format (ws : list jsstring) (style : string) : format_result :=
  match style_lookup style style_names with
  | Some st => Formatted (format_style st ws)
  | None => InvalidArgument style
  end.

End SpecFormat.

(* ================================================================== *)
(** ** Notions the properties are stated with *)

(** *** Words *)

(** The non-empty pieces of a split, read off directly: [emit] closes the
    piece being read. *)
Definition emit (cur : jsstring) : list jsstring :=
  match cur with [] => [] | _ :: _ => [cur] end.

Fixpoint words_go (p : N -> bool) (cur : jsstring) (s : jsstring) : list jsstring :=
  match s with
  | [] => emit cur
  | c :: t => if p c then emit cur ++ words_go p [] t else words_go p (cur ++ [c]) t
  end.

Definition words (p : N -> bool) (s : jsstring) : list jsstring := words_go p [] s.

(** The words a converter of [src/refined_promot.js] extracts from a string:
    the separator-delimited pieces, cleaned, the empty ones dropped. *)
Definition tokens (s : jsstring) : list jsstring :=
  filter nonempty (List.map strip_non_alnum (filteredWords (trim s))).

(** A word as [toKebabCase] joins them: not empty, no separator inside. *)
Definition piece (w : jsstring) : Prop :=
  w <> [] /\ forallb (fun c => negb (is_sep c)) w = true.

(** *** Shapes of inputs and outputs *)

Definition starts_upper (s : jsstring) : bool :=
  match s with c :: _ => is_upper c | [] => false end.

(** A lowercase letter immediately followed by an uppercase one, somewhere
    in the string. *)
Fixpoint has_case_boundary (s : jsstring) : bool :=
  match s with
  | [] => false
  | c :: t => (is_lower c && starts_upper t) || has_case_boundary t
  end.

Definition no_upper (w : jsstring) : bool := forallb (fun c => negb (is_upper c)) w.
Definition sep_free (w : jsstring) : bool := forallb (fun c => negb (is_sep c)) w.

Definition is_dot (c : N) : bool := c =? DOT.

Definition dot_output_unit (c : N) : bool := (c =? DOT) || is_lower c || is_digit c.

(** Space, hyphen, underscore. *)
Definition is_explicit_sep (c : N) : bool :=
  (c =? SPACE) || (c =? HYPHEN) || (c =? UNDERSCORE).

(** [null], [undefined], any other value that is not a string, the empty
    string and the strings of white space only. *)
Definition degenerate (v : value) : bool :=
  match v with
  | VString s => forallb is_space s
  | _ => true
  end.

(** What [camelCase] makes of one word, by the word's cleaned form. *)
Definition camel_shape (word : jsstring) (index : nat) : jsstring :=
  match strip_non_alnum word with
  | [] => []
  | c :: r =>
      if (index =? 0)%nat then lower_unit c :: r
      else upper_unit c :: ascii_lower r
  end.

(** What the proof that [toKebabCase] is idempotent asks of the engine's
    lowercasing outside ASCII: lowercasing twice is lowercasing once, no
    result holds a letter of [A-Z], and none holds a separator when the
    argument held none. *)
Definition lowering_sound (E : CaseTables) : Prop :=
  forall w : jsstring,
    forallb is_ascii w = false ->
    toLowerCase (unicode_lower w) = unicode_lower w
    /\ no_upper (unicode_lower w) = true
    /\ (sep_free w = true -> sep_free (unicode_lower w) = true).

Section Statements.
Context {E : CaseTables}.

(** The words [toKebabCase] joins: lowercased pieces of a split. *)
Definition kebab_word (f : jsstring) : Prop :=
  piece f /\ no_upper f = true /\ toLowerCase f = f.

End Statements.

(** *** Shapes of joined output *)

Definition starts_with (c : N) (s : jsstring) : bool :=
  match s with x :: _ => x =? c | [] => false end.

Fixpoint ends_with (c : N) (s : jsstring) : bool :=
  match s with
  | [] => false
  | [x] => x =? c
  | _ :: t => ends_with c t
  end.

(** Two units [c] in a row, somewhere in the string. *)
Fixpoint has_double (c : N) (s : jsstring) : bool :=
  match s with
  | [] => false
  | x :: t => ((x =? c) && starts_with c t) || has_double c t
  end.

(** The letters and digits of a string, lowercased: what [camelCase] and
    [dotCase] keep of their input, whatever they do with its words. *)
Definition lowered_alnum (s : jsstring) : jsstring := ascii_lower (strip_non_alnum s).

(** A word that can stand between separators [c]: not empty, no [c] inside. *)
Definition free_of (c : N) (w : jsstring) : Prop :=
  w <> [] /\ forallb (fun x => negb (x =? c)) w = true.

(** Neither white space nor an underscore. *)
Definition kebab_unit (c : N) : bool := negb (is_space c) && negb (c =? UNDERSCORE).

(** The test cases whose result differs from the expectation. *)
Definition mismatches {E : CaseTables} (tcs : list (value * jsstring))
  : list (value * jsstring) :=
  filter (fun tc => negb (jsstring_eqb (camelCase (fst tc)) (snd tc))) tcs.

(** The sum of the lengths of the words, each counted with one separator. *)
Fixpoint spread (ws : list jsstring) : nat :=
  match ws with
  | [] => 0
  | w :: rest => S (List.length w) + spread rest
  end.

(** *** The tokenizer of the specification *)



(** Decides a fact about the character classes by arithmetic on the code
    unit. *)
Ltac class_facts :=
  unfold is_sep, is_hyphen_underscore, is_hyphen, is_space, is_alnum, is_lower,
    is_upper, is_digit, is_ascii, lower_unit, upper_unit,
    SPACE, HYPHEN, UNDERSCORE, DOT in *;
  rewrite <- ?not_true_iff_false in *;
  rewrite ?orb_true_iff, ?andb_true_iff, ?negb_true_iff, ?N.leb_le, ?N.eqb_eq,
    ?N.ltb_lt in *;
  rewrite <- ?not_true_iff_false in *;
  rewrite ?orb_true_iff, ?andb_true_iff, ?N.leb_le, ?N.eqb_eq, ?N.ltb_lt in *;
  try lia.

(* ================================================================== *)
(** ** Facts about the string passes *)

Section SplitFacts.
Variable p : N -> bool.

Lemma filter_split_go (s : jsstring) :
  forall r cur, (r = true -> cur = []) ->
    filter nonempty (split_go p r cur s) = words_go p cur s.
Proof.
  induction s as [|c t IH]; intros r cur Hr; simpl.
  - destruct cur; reflexivity.
  - destruct (p c).
    + destruct r.
      * rewrite (Hr eq_refl). simpl. apply IH; auto.
      * destruct cur; simpl; rewrite IH; auto.
    + apply IH. discriminate.
Qed.

Lemma filter_split (s : jsstring) : filter nonempty (split p s) = words p s.
Proof. apply filter_split_go. discriminate. Qed.

(** A run of separators counts as one, whatever its length. *)
Lemma split_go_skip_run (run v : jsstring) :
  forallb p run = true ->
  split_go p true [] (run ++ v) = split_go p true [] v.
Proof.
  induction run as [|c run IH]; simpl; intros H; [reflexivity|].
  apply andb_true_iff in H as [Hc Hrun]. rewrite Hc. auto.
Qed.

Lemma split_go_run_collapse (u run v : jsstring) (c : N) :
  run <> [] -> forallb p run = true -> p c = true ->
  forall r cur,
    split_go p r cur (u ++ run ++ v) = split_go p r cur (u ++ c :: v).
Proof.
  intros Hne Hrun Hc. induction u as [|a u IH]; intros r cur; simpl.
  - destruct run as [|c1 run']; [congruence|]. simpl in *.
    apply andb_true_iff in Hrun as [Hc1 Hrun']. rewrite Hc1, Hc.
    rewrite (split_go_skip_run run' v Hrun'). reflexivity.
  - destruct (p a); [destruct r|]; rewrite ?IH; reflexivity.
Qed.

Lemma words_go_run_collapse (u run v : jsstring) (c : N) :
  run <> [] -> forallb p run = true -> p c = true ->
  forall cur, words_go p cur (u ++ run ++ v) = words_go p cur (u ++ c :: v).
Proof.
  intros Hne Hrun Hc cur.
  rewrite <- !(@filter_split_go _ false cur) by discriminate.
  rewrite (split_go_run_collapse u v Hne Hrun Hc). reflexivity.
Qed.

(** No piece of a split holds a separator. *)
Lemma split_go_pieces_clean (s : jsstring) :
  forall r cur w, forallb (fun c => negb (p c)) cur = true ->
    In w (split_go p r cur s) -> forallb (fun c => negb (p c)) w = true.
Proof.
  induction s as [|c t IH]; intros r cur w Hcur Hin; simpl in Hin.
  - destruct Hin as [<-|[]]. exact Hcur.
  - destruct (p c) eqn:Hc.
    + destruct r.
      * apply (IH true [] w); auto.
      * destruct Hin as [<-|Hin]; [exact Hcur|]. apply (IH true [] w); auto.
    + apply (IH false (cur ++ [c]) w); auto.
      rewrite forallb_app, Hcur. simpl. rewrite Hc. reflexivity.
Qed.

Lemma split_pieces_clean (s : jsstring) (w : jsstring) :
  In w (split p s) -> forallb (fun c => negb (p c)) w = true.
Proof. apply split_go_pieces_clean. reflexivity. Qed.

(** A string of separators only splits into empty pieces. *)
Lemma split_go_all_sep (s : jsstring) :
  forallb p s = true ->
  forall r w, In w (split_go p r [] s) -> w = [].
Proof.
  induction s as [|c t IH]; simpl; intros H r w Hin.
  - destruct Hin as [<-|[]]. reflexivity.
  - apply andb_true_iff in H as [Hc Ht]. rewrite Hc in Hin.
    destruct r; [|destruct Hin as [<-|Hin]]; eauto.
Qed.

Lemma words_go_all_sep (s : jsstring) :
  forallb p s = true -> words_go p [] s = [].
Proof.
  induction s as [|c t IH]; simpl; intros H; [reflexivity|].
  apply andb_true_iff in H as [Hc Ht]. rewrite Hc. simpl. auto.
Qed.

(** Reading a separator-free piece extends the current piece. *)
Lemma split_go_piece (w rest : jsstring) :
  forallb (fun c => negb (p c)) w = true -> w <> [] ->
  forall r cur, split_go p r cur (w ++ rest) = split_go p false (cur ++ w) rest.
Proof.
  induction w as [|c w IH]; intros Hw Hne r cur; [congruence|].
  simpl in *. apply andb_true_iff in Hw as [Hc Hw].
  apply negb_true_iff in Hc. rewrite Hc.
  destruct w as [|c' w'].
  - reflexivity.
  - rewrite IH by (auto; discriminate). rewrite <- app_assoc. reflexivity.
Qed.

(** Stripping separators at either end changes no word. *)
Variable q : N -> bool.
Hypothesis q_sub_p : forall c, q c = true -> p c = true.

Lemma words_strip_start (s : jsstring) : words p (strip_start q s) = words p s.
Proof.
  unfold words. induction s as [|c t IH]; simpl; [reflexivity|].
  destruct (q c) eqn:Hq; [|reflexivity].
  rewrite (@q_sub_p _ Hq). exact IH.
Qed.

Lemma words_go_strip_end (s : jsstring) :
  forall cur, words_go p cur (strip_end q s) = words_go p cur s.
Proof.
  induction s as [|c t IH]; intros cur; [reflexivity|].
  simpl. destruct (strip_end q t) as [|c' t'] eqn:Ht.
  - destruct (q c) eqn:Hq.
    + rewrite (@q_sub_p _ Hq), <- IH. simpl. rewrite app_nil_r. reflexivity.
    + simpl. destruct (p c); rewrite <- IH; reflexivity.
  - simpl. destruct (p c); rewrite <- IH; reflexivity.
Qed.

(** Replacing runs of separators by a space changes no word. *)
Hypothesis p_space : p SPACE = true.

Lemma words_go_replace_runs (s : jsstring) :
  forall r cur, (r = true -> cur = []) ->
    words_go p cur (replace_runs p r s) = words_go p cur s.
Proof.
  induction s as [|c t IH]; intros r cur Hr; simpl; [reflexivity|].
  destruct (p c) eqn:Hc.
  - destruct r.
    + rewrite (Hr eq_refl). simpl. apply IH; auto.
    + simpl. rewrite p_space. f_equal. apply IH; auto.
  - simpl. rewrite Hc. apply IH. discriminate.
Qed.

End SplitFacts.

(* ------------------------------------------------------------------ *)
(** *** Character classes *)

Lemma space_is_sep (c : N) : is_space c = true -> is_sep c = true.
Proof. class_facts. Qed.

Lemma sep_cases (c : N) : is_sep c = is_hyphen_underscore c || is_space c.
Proof. unfold is_sep, is_hyphen_underscore. reflexivity. Qed.

Lemma lower_not_upper (c : N) : is_lower c = true -> is_upper c = false.
Proof. class_facts. Qed.

Lemma upper_not_lower (c : N) : is_upper c = true -> is_lower c = false.
Proof. class_facts. Qed.

Lemma sep_not_lower (c : N) : is_sep c = true -> is_lower c = false.
Proof. class_facts. Qed.

Lemma sep_not_upper (c : N) : is_sep c = true -> is_upper c = false.
Proof. class_facts. Qed.

Lemma sep_not_alnum (c : N) : is_sep c = true -> is_alnum c = false.
Proof. class_facts. Qed.

Lemma alnum_is_ascii (c : N) : is_alnum c = true -> is_ascii c = true.
Proof. class_facts. Qed.

Lemma lower_unit_not_upper (c : N) : is_upper (lower_unit c) = false.
Proof.
  unfold lower_unit. destruct (is_upper c) eqn:H; [|exact H]. class_facts.
Qed.

Lemma lower_unit_fixed (c : N) : is_upper c = false -> lower_unit c = c.
Proof. unfold lower_unit. intros ->. reflexivity. Qed.

Lemma lower_unit_idem (c : N) : lower_unit (lower_unit c) = lower_unit c.
Proof. apply lower_unit_fixed, lower_unit_not_upper. Qed.

Lemma lower_unit_sep (c : N) : is_sep (lower_unit c) = is_sep c.
Proof.
  unfold lower_unit. destruct (is_upper c) eqn:H; [|reflexivity].
  destruct (is_sep c) eqn:Hs; class_facts.
Qed.

Lemma lower_unit_alnum (c : N) :
  is_alnum c = true -> is_lower (lower_unit c) = true \/ is_digit (lower_unit c) = true.
Proof.
  unfold lower_unit. destruct (is_upper c) eqn:H; class_facts.
Qed.

Lemma upper_unit_alnum (c : N) : is_alnum c = true -> is_alnum (upper_unit c) = true.
Proof.
  unfold upper_unit. destruct (is_lower c) eqn:H; [|auto]. class_facts.
Qed.

Lemma lower_unit_keeps_alnum (c : N) : is_alnum c = true -> is_alnum (lower_unit c) = true.
Proof.
  unfold lower_unit. destruct (is_upper c) eqn:H; [|auto]. class_facts.
Qed.

(* ------------------------------------------------------------------ *)
(** *** Case boundaries *)

(** The scan never overlaps two matches, so it inserts a space exactly
    where a lowercase letter is followed by an uppercase one. *)
Lemma insert_case_boundaries_cons (x : N) (t : jsstring) :
  insert_case_boundaries (x :: t) =
  x :: (if is_lower x && starts_upper t
        then SPACE :: insert_case_boundaries t
        else insert_case_boundaries t).
Proof.
  destruct t as [|y rest]; simpl.
  - rewrite andb_false_r. reflexivity.
  - destruct (is_lower x && is_upper y) eqn:H; [|reflexivity].
    apply andb_true_iff in H as [_ Hy].
    destruct rest as [|z rest']; [reflexivity|].
    rewrite (upper_not_lower _ Hy). reflexivity.
Qed.

Lemma starts_upper_app (u : jsstring) (c : N) (v : jsstring) :
  is_upper c = false -> starts_upper (u ++ c :: v) = starts_upper u.
Proof. destruct u; simpl; auto. Qed.

Lemma insert_case_boundaries_app (u : jsstring) (c : N) (v : jsstring) :
  is_lower c = false -> is_upper c = false ->
  insert_case_boundaries (u ++ c :: v) =
  insert_case_boundaries u ++ c :: insert_case_boundaries v.
Proof.
  intros Hl Hu. induction u as [|x u IH].
  - simpl app. rewrite insert_case_boundaries_cons, Hl. reflexivity.
  - change ((x :: u) ++ c :: v) with (x :: (u ++ c :: v)).
    rewrite !insert_case_boundaries_cons, starts_upper_app, IH by exact Hu.
    destruct (is_lower x && starts_upper u); reflexivity.
Qed.

Lemma insert_case_boundaries_run (run v : jsstring) :
  forallb is_sep run = true ->
  insert_case_boundaries (run ++ v) = run ++ insert_case_boundaries v.
Proof.
  induction run as [|c run IH]; simpl app; intros H; [reflexivity|].
  simpl in H. apply andb_true_iff in H as [Hc Hrun].
  rewrite insert_case_boundaries_cons, (sep_not_lower _ Hc), IH by exact Hrun.
  reflexivity.
Qed.

(** Without an uppercase letter there is nothing to insert. *)
Lemma insert_case_boundaries_no_upper (s : jsstring) :
  forallb (fun c => negb (is_upper c)) s = true -> insert_case_boundaries s = s.
Proof.
  induction s as [|x t IH]; intros H; [reflexivity|].
  simpl in H. apply andb_true_iff in H as [_ Ht].
  rewrite insert_case_boundaries_cons, IH by exact Ht.
  destruct t as [|y t']; simpl.
  - rewrite andb_false_r. reflexivity.
  - simpl in Ht. apply andb_true_iff in Ht as [Hy _].
    apply negb_true_iff in Hy. rewrite Hy, andb_false_r. reflexivity.
Qed.

(** Nor without a lowercase letter. *)
Lemma insert_case_boundaries_no_lower (s : jsstring) :
  forallb (fun c => negb (is_lower c)) s = true -> insert_case_boundaries s = s.
Proof.
  induction s as [|x t IH]; intros H; [reflexivity|].
  simpl in H. apply andb_true_iff in H as [Hx Ht].
  apply negb_true_iff in Hx.
  rewrite insert_case_boundaries_cons, IH, Hx by exact Ht. reflexivity.
Qed.

(** Replacing hyphens and underscores by spaces and splitting at white space
    is splitting at every separator. *)
Lemma split_go_replace_runs (s : jsstring) :
  forall r r' cur, (r' = true -> r = true) -> (r = true -> cur = []) ->
    split_go is_space r cur (replace_runs is_hyphen_underscore r' s) =
    split_go is_sep r cur s.
Proof.
  induction s as [|c t IH]; intros r r' cur Hr' Hr; [reflexivity|].
  simpl. rewrite sep_cases.
  destruct (is_hyphen_underscore c) eqn:Hhu; simpl.
  - destruct r'.
    + rewrite (Hr' eq_refl) in *. rewrite (Hr eq_refl). apply IH; auto.
    + simpl. destruct r; rewrite IH; auto.
  - destruct (is_space c); [destruct r|]; rewrite IH; auto; discriminate.
Qed.

Lemma split_replace_runs (s : jsstring) :
  split is_space (replace_runs is_hyphen_underscore false s) = split is_sep s.
Proof. apply split_go_replace_runs; discriminate. Qed.

(* ------------------------------------------------------------------ *)
(** *** The converters in closed form *)

Lemma words_trim (s : jsstring) : words is_sep (trim s) = words is_sep s.
Proof.
  unfold trim, words.
  rewrite (words_go_strip_end is_sep is_space space_is_sep).
  apply (words_strip_start is_sep is_space space_is_sep).
Qed.

Lemma filteredWords_words (s : jsstring) : filteredWords s = words is_sep s.
Proof.
  unfold filteredWords. rewrite filter_split, words_trim. unfold words.
  apply words_go_replace_runs; [reflexivity|discriminate].
Qed.

Lemma length_zero_nil (A : Type) (l : list A) :
  (List.length l =? 0)%nat = true -> l = [].
Proof. destruct l; [reflexivity|discriminate]. Qed.

Lemma strip_non_alnum_ascii (w : jsstring) : forallb is_ascii (strip_non_alnum w) = true.
Proof.
  unfold strip_non_alnum. induction w as [|c w IH]; simpl; [reflexivity|].
  destruct (is_alnum c) eqn:H; simpl; [|exact IH].
  rewrite (alnum_is_ascii _ H). exact IH.
Qed.

Lemma strip_non_alnum_alnum (w : jsstring) : forallb is_alnum (strip_non_alnum w) = true.
Proof.
  unfold strip_non_alnum. induction w as [|c w IH]; simpl; [reflexivity|].
  destruct (is_alnum c) eqn:H; simpl; [|exact IH]. rewrite H. exact IH.
Qed.

Lemma forallb_tail (A : Type) (f : A -> bool) (x : A) (l : list A) :
  forallb f (x :: l) = true -> forallb f l = true.
Proof. simpl. intros H. apply andb_true_iff in H as [_ H]. exact H. Qed.

Lemma forallb_head (A : Type) (f : A -> bool) (x : A) (l : list A) :
  forallb f (x :: l) = true -> f x = true.
Proof. simpl. intros H. apply andb_true_iff in H as [H _]. exact H. Qed.

Section ConverterFacts.
Context {E : CaseTables}.

Lemma toLowerCase_ascii (s : jsstring) :
  forallb is_ascii s = true -> toLowerCase s = ascii_lower s.
Proof. unfold toLowerCase. intros ->. reflexivity. Qed.

Lemma toUpperCase_ascii (s : jsstring) :
  forallb is_ascii s = true -> toUpperCase s = ascii_upper s.
Proof. unfold toUpperCase. intros ->. reflexivity. Qed.

Lemma camel_word_shape (word : jsstring) (index : nat) :
  camel_word word index = camel_shape word index.
Proof.
  unfold camel_word, camel_shape.
  pose proof (strip_non_alnum_ascii word) as Ha.
  destruct (strip_non_alnum word) as [|c r]; [reflexivity|].
  assert (Hc : forallb is_ascii [c] = true).
  { simpl. rewrite (forallb_head _ _ _ Ha). reflexivity. }
  pose proof (forallb_tail _ _ _ Ha) as Hr.
  simpl List.length. simpl Nat.eqb at 1. cbv iota.
  unfold charAt0, slice1. simpl firstn. simpl skipn.
  rewrite (toLowerCase_ascii _ Hc), (toUpperCase_ascii _ Hc), (toLowerCase_ascii _ Hr).
  destruct (index =? 0)%nat; reflexivity.
Qed.

Lemma map_indexed_ext (A B : Type) (f g : A -> nat -> B) :
  (forall x i, f x i = g x i) ->
  forall l i, map_indexed f i l = map_indexed g i l.
Proof.
  intros H l. induction l as [|x l IH]; intros i; simpl; [reflexivity|].
  rewrite H, IH. reflexivity.
Qed.

Lemma dot_word_shape (word : jsstring) :
  dot_word word = ascii_lower (strip_non_alnum word).
Proof. unfold dot_word. apply toLowerCase_ascii, strip_non_alnum_ascii. Qed.

Lemma camelCase_words (s : jsstring) :
  camelCase (VString s) =
  join [] (filter nonempty (map_indexed camel_shape 0 (words is_sep s))).
Proof.
  unfold camelCase. cbv beta iota delta [loosely_null].
  rewrite filteredWords_words, words_trim.
  rewrite (map_indexed_ext _ _ camel_word_shape).
  destruct (List.length (trim s) =? 0)%nat eqn:Ht.
  - apply length_zero_nil in Ht. rewrite <- (words_trim s), Ht. reflexivity.
  - destruct (List.length (words is_sep s) =? 0)%nat eqn:Hw; [|reflexivity].
    apply length_zero_nil in Hw. rewrite Hw. reflexivity.
Qed.

Lemma dotCase_words (s : jsstring) :
  dotCase (VString s) =
  join [DOT]
    (filter nonempty (List.map (fun w => ascii_lower (strip_non_alnum w)) (words is_sep s))).
Proof.
  unfold dotCase. cbv beta iota delta [loosely_null].
  rewrite filteredWords_words, words_trim.
  rewrite (map_ext _ _ dot_word_shape).
  destruct (List.length (trim s) =? 0)%nat eqn:Ht.
  - apply length_zero_nil in Ht. rewrite <- (words_trim s), Ht. reflexivity.
  - destruct (List.length (words is_sep s) =? 0)%nat eqn:Hw; [|reflexivity].
    apply length_zero_nil in Hw. rewrite Hw. reflexivity.
Qed.

Lemma toKebabCase_pieces (s : jsstring) :
  toKebabCase (VString s) =
  strip_hyphens
    (join [HYPHEN]
       (filter nonempty
          (List.map toLowerCase (split is_sep (insert_case_boundaries s))))).
Proof.
  unfold toKebabCase, kebab_words. rewrite split_replace_runs.
  destruct s as [|c s]; reflexivity.
Qed.

End ConverterFacts.

(* ================================================================== *)
(** ** The camel style *)

Lemma join_nil_cons (w : jsstring) (ws : list jsstring) :
  join [] (w :: ws) = w ++ join [] ws.
Proof. destruct ws; simpl; [rewrite app_nil_r|]; reflexivity. Qed.

(** C1. The specification has the camel style lowercase the first word in
    full, and the test table of [src/refined_promot.js] expects
    [camelCase('HELLO')] to be ['hello'] and [camelCase('XMLHttpRequest')] to
    be ['xmlhttprequest'].  The code lowercases only the first character of
    the first word: it returns ['hELLO'] and ['xMLHttpRequest']. *)
Theorem camelCase_first_word_not_lowercased_in_full (E : CaseTables) :
  camelCase (VString (js "HELLO")) = js "hELLO"
  /\ camelCase (VString (js "XMLHttpRequest")) = js "xMLHttpRequest"
  /\ camelCase (VString (js "AlreadyCamelCase")) = js "alreadyCamelCase".
Proof. repeat split; rewrite camelCase_words; reflexivity. Qed.



(** C10. [toCamelCase] returns [undefined], never a string, whatever it is
    called with. *)
Theorem toCamelCase_returns_undefined (str : value) :
  toCamelCase str = VUndefined /\ is_string (toCamelCase str) = false.
Proof. split; reflexivity. Qed.

(* ================================================================== *)
(** ** Symbols *)

(** C3. The specification lets no symbol into a word and gives
    [convert("user@name!", "camel") == "userName"]; the doc comment of
    [toKebabCase] says that non-alphanumeric characters are removed, and the
    one of [camelCase] gives ['userName'] for ['user@name!'].  The code of
    [toKebabCase] removes nothing and returns ['user@name!']; [camelCase]
    sees one word and returns ['username']. *)
Theorem symbols_at_user_name (E : CaseTables) :
  toKebabCase (VString (js "user@name!")) = js "user@name!"
  /\ camelCase (VString (js "user@name!")) = js "username".
Proof. split; reflexivity. Qed.

(* ================================================================== *)
(** ** The dot style *)

Lemma ascii_lower_nonempty (w : jsstring) : nonempty (ascii_lower w) = nonempty w.
Proof. destruct w; reflexivity. Qed.

Lemma forallb_weaken (A : Type) (f g : A -> bool) (l : list A) :
  (forall x, f x = true -> g x = true) -> forallb f l = true -> forallb g l = true.
Proof.
  intros H. induction l as [|x l IH]; simpl; [reflexivity|].
  intros Hl. apply andb_true_iff in Hl as [Hx Hl]. rewrite (H _ Hx). auto.
Qed.

Lemma forallb_join (f : N -> bool) (sep : jsstring) (ws : list jsstring) :
  forallb f sep = true -> Forall (fun w => forallb f w = true) ws ->
  forallb f (join sep ws) = true.
Proof.
  intros Hsep Hws. induction Hws as [|w ws Hw Hws IH]; [reflexivity|].
  destruct ws as [|w' ws']; [exact Hw|].
  change (join sep (w :: w' :: ws')) with (w ++ sep ++ join sep (w' :: ws')).
  rewrite !forallb_app, Hw, Hsep, IH. reflexivity.
Qed.

Lemma Forall_filter (A : Type) (P : A -> Prop) (f : A -> bool) (l : list A) :
  Forall P l -> Forall P (filter f l).
Proof.
  induction 1 as [|x l Hx Hl IH]; simpl; [constructor|].
  destruct (f x); [constructor|]; assumption.
Qed.

Lemma ascii_lower_clean_units (w : jsstring) :
  forallb dot_output_unit (ascii_lower (strip_non_alnum w)) = true.
Proof.
  unfold strip_non_alnum, ascii_lower. induction w as [|c w IH]; [reflexivity|].
  simpl. destruct (is_alnum c) eqn:Hc; [|exact IH].
  simpl. rewrite IH, andb_true_r. unfold dot_output_unit.
  destruct (lower_unit_alnum c Hc) as [->| ->];
    rewrite ?orb_true_r; reflexivity.
Qed.

Section DotStyle.
Context {E : CaseTables}.

Lemma lowered_tokens (ws : list jsstring) :
  List.map toLowerCase (filter nonempty (List.map strip_non_alnum ws)) =
  filter nonempty (List.map (fun w => ascii_lower (strip_non_alnum w)) ws).
Proof.
  induction ws as [|w ws IH]; [reflexivity|]. simpl.
  rewrite ascii_lower_nonempty.
  destruct (nonempty (strip_non_alnum w)); [|exact IH].
  simpl. rewrite IH, (toLowerCase_ascii _ (strip_non_alnum_ascii w)). reflexivity.
Qed.

Lemma dotCase_non_string (v : value) : is_string v = false -> dotCase v = [].
Proof. destruct v; intros H; try reflexivity; discriminate. Qed.

Lemma dotCase_units (v : value) : forallb dot_output_unit (dotCase v) = true.
Proof.
  destruct (is_string v) eqn:Hv.
  - destruct v; try discriminate. rewrite dotCase_words.
    apply forallb_join; [reflexivity|].
    apply Forall_filter, Forall_forall. intros w Hw.
    apply in_map_iff in Hw as [w0 [<- _]]. apply ascii_lower_clean_units.
  - rewrite (dotCase_non_string _ Hv). reflexivity.
Qed.

(** C8. [dotCase] lowercases the words of its input and joins them with a
    dot; ["hello world"] becomes ["hello.world"]; the output holds nothing
    but dots, lowercase ASCII letters and digits, so no letter of it is
    uppercase. *)
Theorem dotCase_lowercases_and_joins :
  (forall s, dotCase (VString s) = join [DOT] (List.map toLowerCase (tokens s)))
  /\ dotCase (VString (js "hello world")) = js "hello.world"
  /\ (forall v, forallb dot_output_unit (dotCase v) = true)
  /\ (forall v, forallb (fun c => negb (is_upper c)) (dotCase v) = true).
Proof.
  pose proof dotCase_units as Hunits.
  split; [|split; [|split]].
  - intros s. unfold tokens.
    rewrite dotCase_words, filteredWords_words, words_trim, lowered_tokens.
    reflexivity.
  - rewrite dotCase_words. reflexivity.
  - exact Hunits.
  - intros v. apply (forallb_weaken dot_output_unit); [|apply Hunits].
    intros c Hc. unfold dot_output_unit in Hc. apply negb_true_iff.
    destruct (is_upper c) eqn:Hu; [|reflexivity]. exfalso. class_facts.
Qed.

End DotStyle.

(* ================================================================== *)
(** ** Degenerate input *)

Section Degenerate.
Context {E : CaseTables}.

Lemma lowered_empty_pieces (l : list jsstring) :
  (forall w, In w l -> w = []) -> filter nonempty (List.map toLowerCase l) = [].
Proof.
  induction l as [|w l IH]; intros H; [reflexivity|]. simpl.
  rewrite (H w (or_introl eq_refl)). simpl. apply IH. intros w' Hw'.
  apply H. right. exact Hw'.
Qed.

Lemma separators_only (s : jsstring) :
  forallb is_sep s = true ->
  toKebabCase (VString s) = [] /\ camelCase (VString s) = [] /\ dotCase (VString s) = [].
Proof.
  intros Hs. split; [|split].
  - rewrite toKebabCase_pieces, insert_case_boundaries_no_lower.
    + rewrite lowered_empty_pieces; [reflexivity|].
      intros w. apply split_go_all_sep. exact Hs.
    + apply (forallb_weaken is_sep); [|exact Hs].
      intros c Hc. rewrite (sep_not_lower _ Hc). reflexivity.
  - rewrite camelCase_words. unfold words. rewrite words_go_all_sep by exact Hs.
    reflexivity.
  - rewrite dotCase_words. unfold words. rewrite words_go_all_sep by exact Hs.
    reflexivity.
Qed.

(** C5. Called with [null], [undefined], another non-string, the empty
    string or a string of white space only, each of the three converters
    returns the empty string. *)
Theorem degenerate_input_gives_empty_string (v : value) :
  degenerate v = true ->
  toKebabCase v = [] /\ camelCase v = [] /\ dotCase v = [].
Proof.
  destruct v as [| | b | n | s |]; intros H; try (repeat split; reflexivity).
  apply separators_only. apply (forallb_weaken is_space); [|exact H].
  exact space_is_sep.
Qed.

End Degenerate.

Lemma degenerate_input_gives_empty_string_witness :
  degenerate (VString (js "   ")) = true
  /\ @toKebabCase ascii_tables (VString (js "   ")) = []
  /\ @camelCase ascii_tables (VString (js "   ")) = []
  /\ @dotCase ascii_tables (VString (js "   ")) = [].
Proof.
  split; [reflexivity|].
  exact (@degenerate_input_gives_empty_string ascii_tables (VString (js "   ")) eq_refl).
Defined.

(* ================================================================== *)
(** ** Runs of separators *)

Lemma explicit_sep_is_sep (c : N) : is_explicit_sep c = true -> is_sep c = true.
Proof. unfold is_explicit_sep. class_facts. Qed.

Section SeparatorRuns.
Context {E : CaseTables}.

Lemma separator_run_collapses (u run v : jsstring) (c : N) :
  run <> [] -> forallb is_sep run = true -> is_sep c = true ->
  toKebabCase (VString (u ++ run ++ v)) = toKebabCase (VString (u ++ c :: v))
  /\ camelCase (VString (u ++ run ++ v)) = camelCase (VString (u ++ c :: v))
  /\ dotCase (VString (u ++ run ++ v)) = dotCase (VString (u ++ c :: v)).
Proof.
  intros Hne Hrun Hc. split; [|split].
  - rewrite !toKebabCase_pieces.
    rewrite (insert_case_boundaries_app u c v (sep_not_lower _ Hc) (sep_not_upper _ Hc)).
    destruct run as [|c1 run']; [congruence|].
    pose proof (forallb_head _ _ _ Hrun) as Hc1.
    pose proof (forallb_tail _ _ _ Hrun) as Hrun'.
    change (u ++ (c1 :: run') ++ v) with (u ++ c1 :: (run' ++ v)).
    rewrite (insert_case_boundaries_app u c1 (run' ++ v)
               (sep_not_lower _ Hc1) (sep_not_upper _ Hc1)).
    rewrite (insert_case_boundaries_run run' v Hrun').
    change (c1 :: run' ++ insert_case_boundaries v)
      with ((c1 :: run') ++ insert_case_boundaries v).
    unfold split.
    rewrite (@split_go_run_collapse is_sep (insert_case_boundaries u) _
               (insert_case_boundaries v) c Hne Hrun Hc).
    reflexivity.
  - rewrite !camelCase_words. unfold words.
    rewrite (@words_go_run_collapse is_sep u _ v c Hne Hrun Hc). reflexivity.
  - rewrite !dotCase_words. unfold words.
    rewrite (@words_go_run_collapse is_sep u _ v c Hne Hrun Hc). reflexivity.
Qed.

(** C6. A non-empty run of spaces, hyphens and underscores, in any mixture,
    converts as a single one of them does in its place, whatever stands
    before and after it; and
    [camelCase("  multiple   separators---here__")] is
    ["multipleSeparatorsHere"]. *)
Theorem separator_runs_collapse :
  (forall (u run v : jsstring) (c : N),
      run <> [] -> forallb is_explicit_sep run = true -> is_explicit_sep c = true ->
      toKebabCase (VString (u ++ run ++ v)) = toKebabCase (VString (u ++ c :: v))
      /\ camelCase (VString (u ++ run ++ v)) = camelCase (VString (u ++ c :: v))
      /\ dotCase (VString (u ++ run ++ v)) = dotCase (VString (u ++ c :: v)))
  /\ camelCase (VString (js "  multiple   separators---here__"))
     = js "multipleSeparatorsHere".
Proof.
  split.
  - intros u run v c Hne Hrun Hc. apply separator_run_collapses.
    + exact Hne.
    + apply (forallb_weaken is_explicit_sep); [exact explicit_sep_is_sep|exact Hrun].
    + apply explicit_sep_is_sep, Hc.
  - rewrite camelCase_words. reflexivity.
Qed.

End SeparatorRuns.

Lemma separator_runs_collapse_witness :
  js " -_ " <> [] /\ forallb is_explicit_sep (js " -_ ") = true
  /\ is_explicit_sep UNDERSCORE = true
  /\ @toKebabCase ascii_tables (VString (js "user" ++ js " -_ " ++ js "name"))
     = @toKebabCase ascii_tables (VString (js "user" ++ UNDERSCORE :: js "name"))
  /\ @camelCase ascii_tables (VString (js "user" ++ js " -_ " ++ js "name"))
     = @camelCase ascii_tables (VString (js "user" ++ UNDERSCORE :: js "name"))
  /\ @dotCase ascii_tables (VString (js "user" ++ js " -_ " ++ js "name"))
     = @dotCase ascii_tables (VString (js "user" ++ UNDERSCORE :: js "name")).
Proof.
  split; [discriminate|]. split; [reflexivity|]. split; [reflexivity|].
  apply (proj1 (@separator_runs_collapse ascii_tables)
           (js "user") (js " -_ ") (js "name") UNDERSCORE);
    [discriminate|reflexivity|reflexivity].
Defined.

(* ================================================================== *)
(** ** Case boundaries *)

Lemma strip_start_keep (p : N -> bool) (c : N) (s : jsstring) :
  p c = false -> strip_start p (c :: s) = c :: s.
Proof. simpl. intros ->. reflexivity. Qed.

Lemma strip_end_keep (p : N -> bool) (x : jsstring) (c : N) :
  p c = false -> strip_end p (x ++ [c]) = x ++ [c].
Proof.
  intros Hc. induction x as [|a x IH]; simpl.
  - rewrite Hc. reflexivity.
  - rewrite IH. destruct (x ++ [c]) eqn:Hx; [|reflexivity].
    apply app_eq_nil in Hx as [_ Hx]. discriminate.
Qed.

Lemma strip_hyphens_keep (c : N) (x : jsstring) (d : N) :
  is_hyphen c = false -> is_hyphen d = false ->
  strip_hyphens (c :: x ++ [d]) = c :: x ++ [d]
  /\ strip_hyphens [c] = [c].
Proof.
  intros Hc Hd. unfold strip_hyphens. rewrite !strip_start_keep by exact Hc.
  split.
  - apply (strip_end_keep is_hyphen (c :: x) d Hd).
  - apply (strip_end_keep is_hyphen [] c Hc).
Qed.

Lemma not_sep_not_hyphen (c : N) : is_sep c = false -> is_hyphen c = false.
Proof. class_facts. Qed.

Lemma piece_ends (w : jsstring) :
  piece w ->
  exists c x, (w = [c] \/ exists d, w = c :: x ++ [d] /\ is_sep d = false)
              /\ is_sep c = false.
Proof.
  intros [Hne Hw]. destruct w as [|c w]; [congruence|].
  pose proof (forallb_head _ _ _ Hw) as Hc. apply negb_true_iff in Hc.
  pose proof (forallb_tail _ _ _ Hw) as Ht.
  destruct (exists_last (l := c :: w)) as [y [d Hy]]; [discriminate|].
  destruct y as [|c' y]; simpl in Hy.
  - injection Hy as -> ->. exists d, []. auto.
  - injection Hy as <- ->. exists c, y. split; [|exact Hc]. right. exists d.
    split; [reflexivity|].
    rewrite forallb_app in Ht. apply andb_true_iff in Ht as [_ Hd].
    apply (forallb_head _ _ _) in Hd. apply negb_true_iff in Hd. exact Hd.
Qed.

(** The pieces joined by hyphens begin and end with a unit of a piece. *)
Lemma join_pieces_ends (f : jsstring) (fs : list jsstring) :
  Forall piece (f :: fs) ->
  exists c x, (join [HYPHEN] (f :: fs) = [c]
               \/ exists d, join [HYPHEN] (f :: fs) = c :: x ++ [d] /\ is_sep d = false)
              /\ is_sep c = false.
Proof.
  revert f. induction fs as [|g fs IH]; intros f H.
  - apply piece_ends. inversion H; assumption.
  - inversion H as [|? ? Hf Hrest]; subst.
    destruct (IH g Hrest) as [c2 [x2 [Hj2 Hc2]]].
    destruct (piece_ends Hf) as [c1 [x1 [Hf1 Hc1]]].
    change (join [HYPHEN] (f :: g :: fs)) with (f ++ [HYPHEN] ++ join [HYPHEN] (g :: fs)).
    assert (Hlast : exists y d, [HYPHEN] ++ join [HYPHEN] (g :: fs) = y ++ [d]
                                /\ is_sep d = false).
    { destruct Hj2 as [-> | [d [-> Hd]]].
      - exists [HYPHEN], c2. auto.
      - exists (HYPHEN :: c2 :: x2), d. auto. }
    destruct Hlast as [y [d [-> Hd]]].
    destruct Hf1 as [-> | [d1 [-> _]]].
    + exists c1, y. split; [|exact Hc1]. right. exists d. auto.
    + exists c1, (x1 ++ [d1] ++ y). split; [|exact Hc1]. right. exists d.
      split; [|exact Hd]. simpl. rewrite <- !app_assoc. reflexivity.
Qed.

Lemma strip_hyphens_join_pieces (fs : list jsstring) :
  Forall piece fs -> strip_hyphens (join [HYPHEN] fs) = join [HYPHEN] fs.
Proof.
  destruct fs as [|f fs]; [reflexivity|]. intros H.
  destruct (join_pieces_ends H) as [c [x [[-> | [d [-> Hd]]] Hc]]].
  - apply (strip_hyphens_keep c [] c); apply not_sep_not_hyphen; exact Hc.
  - apply strip_hyphens_keep; apply not_sep_not_hyphen; assumption.
Qed.

(** Splitting at separators gives the pieces back. *)
Lemma split_go_join_pieces (fs : list jsstring) :
  forall f r cur, Forall piece (f :: fs) ->
    split_go is_sep r cur (join [HYPHEN] (f :: fs)) = (cur ++ f) :: fs.
Proof.
  induction fs as [|g fs IH]; intros f r cur H;
    inversion H as [|? ? [Hne Hf] Hrest]; subst.
  - simpl join. rewrite <- (app_nil_r f) at 1.
    rewrite (@split_go_piece is_sep f [] Hf Hne). reflexivity.
  - change (join [HYPHEN] (f :: g :: fs)) with (f ++ HYPHEN :: join [HYPHEN] (g :: fs)).
    rewrite (@split_go_piece is_sep f _ Hf Hne).
    cbn [split_go]. change (is_sep HYPHEN) with true. cbv iota.
    rewrite (IH g true [] Hrest). reflexivity.
Qed.

Lemma split_join_pieces (fs : list jsstring) :
  fs <> [] -> Forall piece fs -> split is_sep (join [HYPHEN] fs) = fs.
Proof.
  destruct fs as [|f fs]; [congruence|]. intros _ H.
  apply (split_go_join_pieces false [] H).
Qed.

Lemma words_go_piece (w : jsstring) :
  forallb (fun c => negb (is_sep c)) w = true ->
  forall cur, words_go is_sep cur w = emit (cur ++ w).
Proof.
  induction w as [|c w IH]; intros H cur; simpl.
  - rewrite app_nil_r. reflexivity.
  - pose proof (forallb_head _ _ _ H) as Hc. apply negb_true_iff in Hc.
    rewrite Hc, (IH (forallb_tail _ _ _ H)), <- app_assoc. reflexivity.
Qed.

Lemma insert_case_boundaries_none (s : jsstring) :
  has_case_boundary s = false -> insert_case_boundaries s = s.
Proof.
  induction s as [|c t IH]; intros H; [reflexivity|].
  simpl in H. apply orb_false_iff in H as [Hc Ht].
  rewrite insert_case_boundaries_cons, Hc, IH by exact Ht. reflexivity.
Qed.


Lemma join_filter_singleton (sep w : jsstring) : join sep (filter nonempty [w]) = w.
Proof. destruct w; reflexivity. Qed.


Lemma ascii_lower_sep_free (w : jsstring) :
  forallb (fun c => negb (is_sep c)) w = true ->
  forallb (fun c => negb (is_sep c)) (ascii_lower w) = true.
Proof.
  induction w as [|c w IH]; simpl; [reflexivity|]. intros H.
  apply andb_true_iff in H as [Hc Hw]. rewrite lower_unit_sep, Hc. auto.
Qed.

Section CaseBoundaries.
Context {E : CaseTables}.

(** [toKebabCase] of hyphen-joined pieces that hold no case boundary. *)
Lemma toKebabCase_join_pieces (fs : list jsstring) :
  Forall piece fs ->
  insert_case_boundaries (join [HYPHEN] fs) = join [HYPHEN] fs ->
  toKebabCase (VString (join [HYPHEN] fs)) =
  strip_hyphens (join [HYPHEN] (filter nonempty (List.map toLowerCase fs))).
Proof.
  intros Hfs Hib. rewrite toKebabCase_pieces, Hib.
  destruct fs as [|f fs]; [reflexivity|].
  rewrite split_join_pieces; [reflexivity|discriminate|exact Hfs].
Qed.

Lemma toKebabCase_single_word (s : jsstring) :
  forallb is_ascii s = true ->
  forallb (fun c => negb (is_sep c)) s = true ->
  has_case_boundary s = false ->
  toKebabCase (VString s) = ascii_lower s.
Proof.
  intros Ha Hs Hb. destruct s as [|c s]; [reflexivity|].
  assert (Hp : piece (c :: s)) by (split; [discriminate|exact Hs]).
  change (c :: s) with (join [HYPHEN] [c :: s]) at 1.
  rewrite toKebabCase_join_pieces.
  - cbn [List.map]. rewrite (toLowerCase_ascii _ Ha), join_filter_singleton.
    apply (strip_hyphens_join_pieces (fs := [ascii_lower (c :: s)])).
    constructor; [|constructor]. split; [discriminate|].
    apply ascii_lower_sep_free, Hs.
  - constructor; [exact Hp|constructor].
  - apply insert_case_boundaries_none, Hb.
Qed.

Lemma one_word_in_camel_and_dot (s : jsstring) :
  forallb (fun c => negb (is_sep c)) s = true ->
  camelCase (VString s) = camel_word s 0 /\ dotCase (VString s) = dot_word s.
Proof.
  intros Hs. rewrite camelCase_words, dotCase_words, camel_word_shape, dot_word_shape.
  unfold words. rewrite (words_go_piece s Hs []). simpl app.
  destruct s as [|c s]; [split; reflexivity|].
  cbn [emit map_indexed List.map]. rewrite !join_filter_singleton. split; reflexivity.
Qed.


End CaseBoundaries.



(* ================================================================== *)
(** ** Converting twice *)

Lemma lower_unit_ascii (c : N) : is_ascii c = true -> is_ascii (lower_unit c) = true.
Proof. unfold lower_unit. destruct (is_upper c) eqn:H; [|auto]. class_facts. Qed.

Lemma ascii_lower_ascii (w : jsstring) :
  forallb is_ascii w = true -> forallb is_ascii (ascii_lower w) = true.
Proof.
  induction w as [|c w IH]; simpl; [reflexivity|]. intros H.
  apply andb_true_iff in H as [Hc Hw]. rewrite (lower_unit_ascii _ Hc). auto.
Qed.

Lemma ascii_lower_idem (w : jsstring) : ascii_lower (ascii_lower w) = ascii_lower w.
Proof.
  unfold ascii_lower. rewrite map_map. apply map_ext. exact lower_unit_idem.
Qed.

Lemma ascii_lower_no_upper (w : jsstring) : no_upper (ascii_lower w) = true.
Proof.
  unfold no_upper. induction w as [|c w IH]; simpl; [reflexivity|].
  rewrite lower_unit_not_upper. exact IH.
Qed.

Section Lowering.
Context {E : CaseTables}.
Hypothesis sound : lowering_sound E.

Lemma toLowerCase_idem (w : jsstring) : toLowerCase (toLowerCase w) = toLowerCase w.
Proof.
  unfold toLowerCase at 2 3. destruct (forallb is_ascii w) eqn:Ha.
  - rewrite (toLowerCase_ascii _ (ascii_lower_ascii _ Ha)). apply ascii_lower_idem.
  - apply (sound w Ha).
Qed.

Lemma toLowerCase_no_upper (w : jsstring) : no_upper (toLowerCase w) = true.
Proof.
  unfold toLowerCase. destruct (forallb is_ascii w) eqn:Ha.
  - apply ascii_lower_no_upper.
  - apply (sound w Ha).
Qed.

Lemma toLowerCase_sep_free (w : jsstring) :
  sep_free w = true -> sep_free (toLowerCase w) = true.
Proof.
  unfold toLowerCase. destruct (forallb is_ascii w) eqn:Ha.
  - apply ascii_lower_sep_free.
  - apply (sound w Ha).
Qed.

Lemma kebab_words_lowered (l : list jsstring) :
  Forall (fun w => sep_free w = true) l ->
  Forall kebab_word (filter nonempty (List.map toLowerCase l)).
Proof.
  induction 1 as [|w l Hw Hl IH]; simpl; [constructor|].
  destruct (toLowerCase w) as [|c f] eqn:Hf; simpl; [exact IH|].
  constructor; [|exact IH]. rewrite <- Hf. repeat split.
  - rewrite Hf. discriminate.
  - apply toLowerCase_sep_free, Hw.
  - apply toLowerCase_no_upper.
  - apply toLowerCase_idem.
Qed.

Lemma kebab_words_fixed (fs : list jsstring) :
  Forall kebab_word fs -> filter nonempty (List.map toLowerCase fs) = fs.
Proof.
  induction 1 as [|f fs [[Hne _] [_ Hf]] Hfs IH]; simpl; [reflexivity|].
  rewrite Hf, IH. destruct f; [congruence|reflexivity].
Qed.

Lemma toKebabCase_idempotent (v : value) :
  toKebabCase (VString (toKebabCase v)) = toKebabCase v.
Proof.
  destruct v as [| | b | n | s |]; try reflexivity.
  rewrite (toKebabCase_pieces s).
  set (fs := filter nonempty
               (List.map toLowerCase (split is_sep (insert_case_boundaries s)))).
  assert (Hfs : Forall kebab_word fs).
  { apply kebab_words_lowered, Forall_forall. intros w Hw.
    apply (split_pieces_clean is_sep _ _ Hw). }
  assert (Hp : Forall piece fs).
  { apply (Forall_impl piece (P := kebab_word)); [|exact Hfs]. intros f Hf. apply Hf. }
  rewrite (strip_hyphens_join_pieces Hp), toKebabCase_join_pieces.
  - rewrite (kebab_words_fixed Hfs). apply strip_hyphens_join_pieces, Hp.
  - exact Hp.
  - apply insert_case_boundaries_no_upper.
    apply forallb_join; [reflexivity|].
    apply (Forall_impl _ (P := kebab_word)); [|exact Hfs]. intros f Hf. apply Hf.
Qed.

End Lowering.

(** The ASCII-only tables are sound in that sense. *)
Lemma ascii_tables_sound : lowering_sound ascii_tables.
Proof.
  intros w _. split; [|split].
  - unfold toLowerCase. simpl unicode_lower.
    destruct (forallb is_ascii (ascii_lower w)); apply ascii_lower_idem.
  - apply ascii_lower_no_upper.
  - apply ascii_lower_sep_free.
Qed.

Lemma filter_all (A : Type) (f : A -> bool) (l : list A) :
  forallb f l = true -> filter f l = l.
Proof.
  induction l as [|x l IH]; simpl; [reflexivity|]. intros H.
  apply andb_true_iff in H as [Hx Hl]. rewrite Hx, (IH Hl). reflexivity.
Qed.

Lemma Forall_map_indexed (A B : Type) (P : B -> Prop) (f : A -> nat -> B) :
  (forall x i, P (f x i)) -> forall l i, Forall P (map_indexed f i l).
Proof.
  intros H l. induction l as [|x l IH]; intros i; simpl; constructor; auto.
Qed.

Lemma alnum_sep_free (w : jsstring) : forallb is_alnum w = true -> sep_free w = true.
Proof.
  apply forallb_weaken. intros c Hc. apply negb_true_iff.
  destruct (is_sep c) eqn:Hs; [|reflexivity].
  rewrite (sep_not_alnum _ Hs) in Hc. discriminate.
Qed.

Lemma ascii_lower_alnum (w : jsstring) :
  forallb is_alnum w = true -> forallb is_alnum (ascii_lower w) = true.
Proof.
  induction w as [|c w IH]; simpl; [reflexivity|]. intros H.
  apply andb_true_iff in H as [Hc Hw]. rewrite (lower_unit_keeps_alnum _ Hc). auto.
Qed.

Lemma camel_shape_alnum (w : jsstring) (i : nat) :
  forallb is_alnum (camel_shape w i) = true.
Proof.
  unfold camel_shape. pose proof (strip_non_alnum_alnum w) as H.
  destruct (strip_non_alnum w) as [|c r]; [reflexivity|].
  pose proof (forallb_head _ _ _ H) as Hc. pose proof (forallb_tail _ _ _ H) as Hr.
  destruct (i =? 0)%nat; simpl.
  - rewrite (lower_unit_keeps_alnum _ Hc). exact Hr.
  - rewrite (upper_unit_alnum _ Hc). apply ascii_lower_alnum, Hr.
Qed.

Lemma dot_unit_cases (c : N) :
  dot_output_unit c = true ->
  is_sep c = false /\ is_upper c = false /\ is_alnum c = negb (is_dot c).
Proof.
  unfold dot_output_unit, is_dot. intros H.
  destruct (is_sep c) eqn:Hs; destruct (is_upper c) eqn:Hu;
    destruct (is_alnum c) eqn:Ha; destruct (c =? DOT) eqn:Hd;
    try (repeat split; reflexivity); exfalso; class_facts.
Qed.

Lemma undotted (out : jsstring) :
  forallb dot_output_unit out = true ->
  ascii_lower (strip_non_alnum out) = filter (fun c => negb (is_dot c)) out.
Proof.
  unfold strip_non_alnum. induction out as [|c out IH]; [reflexivity|]. intros H.
  destruct (dot_unit_cases c (forallb_head _ _ _ H)) as [_ [Hu Ha]].
  simpl. rewrite Ha, <- (IH (forallb_tail _ _ _ H)).
  destruct (negb (is_dot c)); [|reflexivity].
  simpl. rewrite (lower_unit_fixed _ Hu). reflexivity.
Qed.

Section Twice.
Context {E : CaseTables}.

Lemma camelCase_alnum (v : value) : forallb is_alnum (camelCase v) = true.
Proof.
  destruct v as [| | b | n | s |]; try reflexivity.
  rewrite camelCase_words. apply forallb_join; [reflexivity|].
  apply Forall_filter, Forall_map_indexed. exact camel_shape_alnum.
Qed.

(** Converting a [camelCase] output again lowercases its first unit and
    changes nothing else. *)
Lemma camelCase_twice (v : value) :
  camelCase (VString (camelCase v)) =
  match camelCase v with [] => [] | c :: r => lower_unit c :: r end.
Proof.
  pose proof (camelCase_alnum v) as Ha.
  destruct (one_word_in_camel_and_dot (camelCase v) (alnum_sep_free _ Ha)) as [-> _].
  rewrite camel_word_shape. unfold camel_shape, strip_non_alnum.
  rewrite (filter_all _ _ Ha). reflexivity.
Qed.

(** Converting a [dotCase] output again removes its dots. *)
Lemma dotCase_twice (v : value) :
  dotCase (VString (dotCase v)) = filter (fun c => negb (is_dot c)) (dotCase v).
Proof.
  pose proof (dotCase_units v) as Hout.
  assert (Hs : sep_free (dotCase v) = true).
  { apply (forallb_weaken dot_output_unit); [|exact Hout].
    intros c Hc. destruct (dot_unit_cases c Hc) as [-> _]. reflexivity. }
  destruct (one_word_in_camel_and_dot (dotCase v) Hs) as [_ ->].
  rewrite dot_word_shape. apply undotted, Hout.
Qed.

Lemma camelCase_starts_lower (s w : jsstring) (rest : list jsstring) :
  filteredWords (trim s) = w :: rest ->
  nonempty (strip_non_alnum w) = true ->
  starts_upper (camelCase (VString s)) = false.
Proof.
  intros Hw Hne. rewrite filteredWords_words, words_trim in Hw.
  rewrite camelCase_words, Hw. simpl map_indexed. unfold camel_shape at 1.
  destruct (strip_non_alnum w) as [|c r]; [discriminate|].
  change (0 =? 0)%nat with true. cbn [filter nonempty]. rewrite join_nil_cons.
  simpl. apply lower_unit_not_upper.
Qed.

(** C4, as the code has it.  [toKebabCase] is idempotent (for a lowercasing
    that is sound in the sense of [lowering_sound]).  [camelCase] applied to
    its own output returns it whenever that output does not begin with an
    uppercase letter, which is so whenever the first separator-delimited
    word of the input holds a letter or a digit.  [dotCase] applied to its
    own output returns it with the dots removed. *)
Theorem converting_twice :
  (lowering_sound E ->
   forall v, toKebabCase (VString (toKebabCase v)) = toKebabCase v)
  /\ (forall v, starts_upper (camelCase v) = false ->
                camelCase (VString (camelCase v)) = camelCase v)
  /\ (forall (s w : jsstring) (rest : list jsstring),
        filteredWords (trim s) = w :: rest ->
        nonempty (strip_non_alnum w) = true ->
        starts_upper (camelCase (VString s)) = false)
  /\ (forall v, dotCase (VString (dotCase v)) =
                filter (fun c => negb (is_dot c)) (dotCase v)).
Proof.
  split; [|split; [|split]].
  - intros sound v. apply toKebabCase_idempotent, sound.
  - intros v Hv. rewrite camelCase_twice.
    destruct (camelCase v) as [|c r]; [reflexivity|].
    simpl in Hv. rewrite (lower_unit_fixed _ Hv). reflexivity.
  - exact camelCase_starts_lower.
  - exact dotCase_twice.
Qed.

End Twice.

Lemma converting_twice_witness :
  (lowering_sound ascii_tables
   /\ @toKebabCase ascii_tables (VString (@toKebabCase ascii_tables (VString (js "User ID"))))
      = @toKebabCase ascii_tables (VString (js "User ID")))
  /\ (starts_upper (@camelCase ascii_tables (VString (js "hello world"))) = false
      /\ @camelCase ascii_tables (VString (@camelCase ascii_tables (VString (js "hello world"))))
         = @camelCase ascii_tables (VString (js "hello world")))
  /\ (filteredWords (trim (js "hello world")) = [js "hello"; js "world"]
      /\ nonempty (strip_non_alnum (js "hello")) = true
      /\ starts_upper (@camelCase ascii_tables (VString (js "hello world"))) = false).
Proof.
  pose proof (@converting_twice ascii_tables) as [Hk [Hc [Hs _]]].
  split; [|split].
  - split; [exact ascii_tables_sound|].
    exact (Hk ascii_tables_sound (VString (js "User ID"))).
  - split; [reflexivity|]. exact (Hc (VString (js "hello world")) eq_refl).
  - split; [reflexivity|]. split; [reflexivity|].
    exact (Hs (js "hello world") (js "hello") [js "world"] eq_refl eq_refl).
Defined.

(** C4 as stated fails for [dotCase]: ["hello world"] converts to
    ["hello.world"], and that converts to ["helloworld"]. *)
Lemma dotCase_not_idempotent :
  @dotCase ascii_tables (VString (js "hello world")) = js "hello.world"
  /\ @dotCase ascii_tables (VString (js "hello.world")) = js "helloworld"
  /\ @dotCase ascii_tables (VString (@dotCase ascii_tables (VString (js "hello world"))))
     <> @dotCase ascii_tables (VString (js "hello world")).
Proof. split; [reflexivity|]. split; [reflexivity|]. discriminate. Qed.

(* ================================================================== *)
(** ** Style selection *)

Lemma style_lookup_unknown (name : string) (table : list (string * CaseStyle)) :
  ~ In name (List.map fst table) -> style_lookup name table = None.
Proof.
  induction table as [|[n st] rest IH]; simpl; intros H; [reflexivity|].
  destruct (String.eqb_spec name n) as [->|Hn].
  - exfalso. apply H. left. reflexivity.
  - apply IH. intros Hin. apply H. right. exact Hin.
Qed.

(** C7. With a style name outside the enumerated set, [format] returns the
    invalid-argument failure naming that style, whatever the words are; it
    returns no formatted string, so no style stands in for the unknown
    one. *)
Theorem format_rejects_unknown_style
  (E : CaseTables) (ws : list jsstring) (style : string) :
  ~ In style (List.map fst style_names) ->
  format ws style = InvalidArgument style
  /\ (forall st : CaseStyle, format ws style <> Formatted (format_style st ws)).
Proof.
  intros H. unfold format. rewrite (style_lookup_unknown _ _ H).
  split; [reflexivity|]. intros st. discriminate.
Qed.

Lemma format_rejects_unknown_style_witness :
  ~ In "title"%string (List.map fst style_names)
  /\ @format ascii_tables [js "user"; js "name"] "title"
     = InvalidArgument "title".
Proof.
  assert (H : ~ In "title"%string (List.map fst style_names)).
  { simpl. intros [H|[H|[H|[H|[H|[]]]]]]; discriminate. }
  split; [exact H|].
  exact (proj1 (@format_rejects_unknown_style ascii_tables
                  [js "user"; js "name"] "title" H)).
Defined.

(* ================================================================== *)
(** ** The test table of [camelCase] *)

(** X3. The loop of lines 133-146, run over the test table of [camelCase],
    counts 24 passed and 3 failed; the failing inputs are ['XMLHttpRequest'],
    ['HTTP-request'] and ['HELLO']. *)
Theorem camelCase_test_table_tally (E : CaseTables) :
  run_tests = {| passed := 24; failed := 3 |}
  /\ failing_inputs =
     [VString (js "XMLHttpRequest"); VString (js "HTTP-request"); VString (js "HELLO")].
Proof. split; reflexivity. Qed.

(** X1. Whatever it is called with, [camelCase] returns ASCII letters and
    digits only. *)
Theorem camelCase_output_alphanumeric (E : CaseTables) (v : value) :
  forallb is_alnum (camelCase v) = true.
Proof. apply camelCase_alnum. Qed.




(* ================================================================== *)
(** ** What the converters keep of their input *)

Lemma words_go_app_sep (p : N -> bool) (u : jsstring) (c : N) (v : jsstring) :
  p c = true ->
  forall cur, words_go p cur (u ++ c :: v) = words_go p cur u ++ words p v.
Proof.
  intros Hc. induction u as [|a u IH]; intros cur; simpl.
  - rewrite Hc. reflexivity.
  - destruct (p a); [|apply IH]. rewrite IH, app_assoc. reflexivity.
Qed.

Lemma concat_emit (cur : jsstring) : List.concat (emit cur) = cur.
Proof. destruct cur; simpl; [|rewrite app_nil_r]; reflexivity. Qed.

(** The words of a string, put end to end, are its units outside the
    separators. *)
Lemma concat_words_go (p : N -> bool) (s : jsstring) :
  forall cur, List.concat (words_go p cur s) = cur ++ filter (fun c => negb (p c)) s.
Proof.
  induction s as [|c t IH]; intros cur; simpl.
  - rewrite concat_emit, app_nil_r. reflexivity.
  - destruct (p c); simpl.
    + rewrite concat_app, concat_emit, IH. reflexivity.
    + rewrite IH, <- app_assoc. reflexivity.
Qed.

Lemma join_nil_concat (l : list jsstring) : join [] l = List.concat l.
Proof.
  induction l as [|w l IH]; [reflexivity|].
  rewrite join_nil_cons, IH. reflexivity.
Qed.

Lemma concat_filter_nonempty (l : list jsstring) : List.concat (filter nonempty l) = List.concat l.
Proof.
  induction l as [|w l IH]; [reflexivity|]. simpl.
  destruct w; simpl; rewrite IH; reflexivity.
Qed.

Lemma filter_join (f : N -> bool) (c : N) (l : list jsstring) :
  f c = false -> filter f (join [c] l) = List.concat (List.map (filter f) l).
Proof.
  intros Hc. induction l as [|w l IH]; [reflexivity|].
  destruct l as [|w' l'].
  - simpl. rewrite app_nil_r. reflexivity.
  - change (join [c] (w :: w' :: l')) with (w ++ c :: join [c] (w' :: l')).
    rewrite filter_app. cbn [filter]. rewrite Hc, IH. reflexivity.
Qed.

Lemma filter_filter_sub (A : Type) (f g : A -> bool) (l : list A) :
  (forall x, f x = true -> g x = true) -> filter f (filter g l) = filter f l.
Proof.
  intros H. induction l as [|x l IH]; [reflexivity|]. simpl.
  destruct (g x) eqn:Hg; simpl.
  - rewrite IH. reflexivity.
  - destruct (f x) eqn:Hf; [|exact IH]. rewrite (H _ Hf) in Hg. discriminate.
Qed.

Lemma alnum_not_sep (c : N) : is_alnum c = true -> negb (is_sep c) = true.
Proof.
  intros H. destruct (is_sep c) eqn:Hs; [|reflexivity].
  rewrite (sep_not_alnum _ Hs) in H. discriminate.
Qed.

Lemma lower_upper_unit (c : N) : lower_unit (upper_unit c) = lower_unit c.
Proof.
  unfold upper_unit. destruct (is_lower c) eqn:Hl; [|reflexivity].
  unfold lower_unit. rewrite (lower_not_upper _ Hl).
  assert (Hu : is_upper (c - 32) = true) by class_facts.
  rewrite Hu. class_facts.
Qed.


Lemma ascii_lower_concat (l : list jsstring) :
  ascii_lower (List.concat l) = List.concat (List.map ascii_lower l).
Proof. apply concat_map. Qed.

Lemma strip_non_alnum_concat (l : list jsstring) :
  strip_non_alnum (List.concat l) = List.concat (List.map strip_non_alnum l).
Proof.
  unfold strip_non_alnum. induction l as [|w l IH]; [reflexivity|].
  simpl. rewrite filter_app, IH. reflexivity.
Qed.

Lemma lowered_camel_shape (w : jsstring) (i : nat) :
  ascii_lower (camel_shape w i) = lowered_alnum w.
Proof.
  unfold camel_shape, lowered_alnum.
  destruct (strip_non_alnum w) as [|c r]; [reflexivity|].
  destruct (i =? 0)%nat; simpl.
  - rewrite lower_unit_idem. reflexivity.
  - rewrite lower_upper_unit. fold (ascii_lower r). fold (ascii_lower (ascii_lower r)).
    rewrite ascii_lower_idem. reflexivity.
Qed.

Lemma map_lowered_camel_shape (l : list jsstring) :
  forall i, List.map ascii_lower (map_indexed camel_shape i l) = List.map lowered_alnum l.
Proof.
  induction l as [|w l IH]; intros i; [reflexivity|].
  simpl. rewrite lowered_camel_shape, IH. reflexivity.
Qed.

(** The letters and digits of the words are those of the string. *)
Lemma lowered_alnum_words (s : jsstring) :
  List.concat (List.map lowered_alnum (words is_sep s)) = lowered_alnum s.
Proof.
  unfold lowered_alnum.
  rewrite <- (map_map strip_non_alnum ascii_lower), <- ascii_lower_concat.
  rewrite <- strip_non_alnum_concat. unfold words. rewrite concat_words_go.
  simpl app. unfold strip_non_alnum.
  rewrite (filter_filter_sub is_alnum (fun c => negb (is_sep c)) s alnum_not_sep).
  reflexivity.
Qed.

Lemma lowered_alnum_alnum (w : jsstring) : forallb is_alnum (lowered_alnum w) = true.
Proof. apply ascii_lower_alnum, strip_non_alnum_alnum. Qed.

Lemma alnum_not_dot (c : N) : is_alnum c = true -> negb (is_dot c) = true.
Proof.
  intros H. apply negb_true_iff. unfold is_dot.
  destruct (c =? DOT) eqn:Hd; [|reflexivity]. exfalso. class_facts.
Qed.

Lemma map_filter_all (f : N -> bool) (l : list jsstring) :
  Forall (fun w => forallb f w = true) l -> List.map (filter f) l = l.
Proof.
  induction 1 as [|w l Hw Hl IH]; [reflexivity|].
  simpl. rewrite (filter_all _ _ Hw), IH. reflexivity.
Qed.

Lemma nonempty_ascii_lower (w : jsstring) : nonempty (ascii_lower w) = nonempty w.
Proof. destruct w; reflexivity. Qed.

Lemma nonempty_join_filter (sep : jsstring) (l : list jsstring) :
  nonempty (join sep (filter nonempty l)) = nonempty (List.concat l).
Proof.
  induction l as [|w l IH]; [reflexivity|].
  destruct w as [|c w]; [exact IH|].
  cbn [filter nonempty]. destruct (filter nonempty l); reflexivity.
Qed.

Section Kept.
Context {E : CaseTables}.

Lemma lowered_camelCase (s : jsstring) :
  ascii_lower (camelCase (VString s)) = lowered_alnum s.
Proof.
  rewrite camelCase_words, join_nil_concat, concat_filter_nonempty.
  rewrite ascii_lower_concat, map_lowered_camel_shape.
  apply lowered_alnum_words.
Qed.

(** X5. [camelCase] changes the case of letters and drops what is neither a
    letter nor a digit, and nothing else: lowercased, its output is the
    lowercased letters and digits of the input, in their order.  So the
    output is as long as the input has letters and digits, and it is empty
    exactly when the input has none. *)
Theorem camelCase_keeps_letters_and_digits (s : jsstring) :
  ascii_lower (camelCase (VString s)) = lowered_alnum s
  /\ List.length (camelCase (VString s)) = List.length (strip_non_alnum s)
  /\ nonempty (camelCase (VString s)) = nonempty (strip_non_alnum s).
Proof.
  pose proof (lowered_camelCase s) as H.
  split; [exact H|]. split.
  - apply (f_equal (@List.length N)) in H. unfold lowered_alnum, ascii_lower in H.
    rewrite !length_map in H. exact H.
  - apply (f_equal nonempty) in H. unfold lowered_alnum in H.
    rewrite !nonempty_ascii_lower in H. exact H.
Qed.

(** X6. [dotCase] lowercases letters, drops what is neither a letter nor a
    digit and puts dots between words, and nothing else: without its dots,
    its output is the lowercased letters and digits of the input, in their
    order; it is empty exactly when the input has none.  Up to case and
    dots, [dotCase] and [camelCase] return the same. *)
Theorem dotCase_keeps_letters_and_digits (s : jsstring) :
  filter (fun c => negb (is_dot c)) (dotCase (VString s)) = lowered_alnum s
  /\ nonempty (dotCase (VString s)) = nonempty (strip_non_alnum s)
  /\ filter (fun c => negb (is_dot c)) (dotCase (VString s))
     = ascii_lower (camelCase (VString s)).
Proof.
  assert (H : filter (fun c => negb (is_dot c)) (dotCase (VString s)) = lowered_alnum s).
  { rewrite dotCase_words, filter_join by reflexivity.
    rewrite map_filter_all.
    - rewrite concat_filter_nonempty. apply lowered_alnum_words.
    - apply Forall_filter, Forall_forall. intros w Hw.
      apply in_map_iff in Hw as [w0 [<- _]].
      apply (forallb_weaken is_alnum); [exact alnum_not_dot|].
      apply lowered_alnum_alnum. }
  split; [exact H|]. split.
  - rewrite dotCase_words, nonempty_join_filter.
    change (fun w => ascii_lower (strip_non_alnum w)) with lowered_alnum.
    rewrite lowered_alnum_words. apply nonempty_ascii_lower.
  - rewrite H. symmetry. apply lowered_camelCase.
Qed.

End Kept.

Lemma filter_insert_case_boundaries (s : jsstring) :
  filter (fun c => negb (is_sep c)) (insert_case_boundaries s)
  = filter (fun c => negb (is_sep c)) s.
Proof.
  induction s as [|x t IH]; [reflexivity|].
  rewrite insert_case_boundaries_cons.
  destruct (is_lower x && starts_upper t); cbn [filter];
    change (negb (is_sep SPACE)) with false; cbv iota; rewrite IH; reflexivity.
Qed.

Lemma insert_case_boundaries_forall (f : N -> bool) (s : jsstring) :
  f SPACE = true -> forallb f s = true -> forallb f (insert_case_boundaries s) = true.
Proof.
  intros Hsp. induction s as [|x t IH]; intros H; [reflexivity|].
  rewrite insert_case_boundaries_cons.
  pose proof (forallb_head _ _ _ H) as Hx. pose proof (IH (forallb_tail _ _ _ H)) as Ht.
  destruct (is_lower x && starts_upper t); simpl; rewrite Hx, ?Hsp, Ht; reflexivity.
Qed.

Lemma split_go_pieces_forall (p f : N -> bool) (s : jsstring) :
  forall r cur w, forallb f cur = true -> forallb f s = true ->
    In w (split_go p r cur s) -> forallb f w = true.
Proof.
  induction s as [|c t IH]; intros r cur w Hcur Hs Hin; simpl in Hin.
  - destruct Hin as [<-|[]]. exact Hcur.
  - pose proof (forallb_head _ _ _ Hs) as Hc. pose proof (forallb_tail _ _ _ Hs) as Ht.
    destruct (p c).
    + destruct r.
      * apply (IH true [] w); auto.
      * destruct Hin as [<-|Hin]; [exact Hcur|]. apply (IH true [] w); auto.
    + apply (IH false (cur ++ [c]) w); auto.
      rewrite forallb_app, Hcur. simpl. rewrite Hc. reflexivity.
Qed.

Lemma words_pieces (s : jsstring) : Forall piece (words is_sep s).
Proof.
  rewrite <- filter_split. apply Forall_forall. intros w Hw.
  apply filter_In in Hw as [Hin Hne]. split.
  - destruct w; [discriminate|discriminate].
  - apply (split_pieces_clean is_sep _ _ Hin).
Qed.

Lemma filter_nonempty_map_lower (l : list jsstring) :
  filter nonempty (List.map ascii_lower l) = List.map ascii_lower (filter nonempty l).
Proof.
  induction l as [|w l IH]; [reflexivity|]. simpl.
  rewrite nonempty_ascii_lower. destruct (nonempty w); simpl; rewrite IH; reflexivity.
Qed.

Lemma ascii_lower_piece (w : jsstring) : piece w -> piece (ascii_lower w).
Proof.
  intros [Hne Hw]. split.
  - destruct w; [congruence|discriminate].
  - apply ascii_lower_sep_free, Hw.
Qed.

Lemma Forall_map_piece (l : list jsstring) :
  Forall piece l -> Forall piece (List.map ascii_lower l).
Proof.
  induction 1 as [|w l Hw Hl IH]; simpl; constructor; auto using ascii_lower_piece.
Qed.

Lemma pieces_nonempty (l : list jsstring) : Forall piece l -> filter nonempty l = l.
Proof.
  induction 1 as [|w l [Hne _] Hl IH]; [reflexivity|]. simpl.
  destruct w; [congruence|]. simpl. rewrite IH. reflexivity.
Qed.

Lemma pieces_sep_free (l : list jsstring) :
  Forall piece l -> Forall (fun w => forallb (fun c => negb (is_sep c)) w = true) l.
Proof. apply Forall_impl. intros w [_ H]. exact H. Qed.

Section KebabAscii.
Context {E : CaseTables}.

(** On ASCII input [toKebabCase] is the lowercased words, at separators and
    case boundaries, joined by hyphens. *)
Lemma toKebabCase_ascii (s : jsstring) :
  forallb is_ascii s = true ->
  toKebabCase (VString s) =
  join [HYPHEN] (List.map ascii_lower (words is_sep (insert_case_boundaries s))).
Proof.
  intros Ha. rewrite toKebabCase_pieces.
  rewrite (map_ext_in toLowerCase ascii_lower).
  - rewrite filter_nonempty_map_lower, filter_split.
    apply strip_hyphens_join_pieces, Forall_map_piece, words_pieces.
  - intros w Hw. apply toLowerCase_ascii.
    apply (split_go_pieces_forall is_sep is_ascii (insert_case_boundaries s)
             false [] w eq_refl); [|exact Hw].
    apply insert_case_boundaries_forall; [reflexivity|exact Ha].
Qed.

(** X7. On an ASCII string [toKebabCase] lowercases and rearranges
    separators, and nothing else: leaving the separators out, the output is
    the lowercased input, unit for unit, symbols included.  It is empty
    exactly when the input holds separators only. *)
Theorem toKebabCase_keeps_non_separators (s : jsstring) :
  forallb is_ascii s = true ->
  filter (fun c => negb (is_sep c)) (toKebabCase (VString s))
  = ascii_lower (filter (fun c => negb (is_sep c)) s)
  /\ nonempty (toKebabCase (VString s))
     = nonempty (filter (fun c => negb (is_sep c)) s).
Proof.
  intros Ha. rewrite (toKebabCase_ascii s Ha).
  set (ws := words is_sep (insert_case_boundaries s)).
  assert (Hws : Forall piece (List.map ascii_lower ws))
    by apply Forall_map_piece, words_pieces.
  assert (Hcat : List.concat (List.map ascii_lower ws)
                 = ascii_lower (filter (fun c => negb (is_sep c)) s)).
  { rewrite <- ascii_lower_concat. unfold ws, words.
    rewrite concat_words_go, filter_insert_case_boundaries. reflexivity. }
  split.
  - rewrite filter_join by reflexivity.
    rewrite (map_filter_all _ (pieces_sep_free Hws)). exact Hcat.
  - rewrite <- (pieces_nonempty Hws), nonempty_join_filter, Hcat.
    apply nonempty_ascii_lower.
Qed.

End KebabAscii.

Lemma toKebabCase_keeps_non_separators_witness :
  forallb is_ascii (js "user@Name_ID") = true
  /\ filter (fun c => negb (is_sep c)) (@toKebabCase ascii_tables (VString (js "user@Name_ID")))
     = js "user@nameid".
Proof.
  split; [reflexivity|].
  exact (proj1 (@toKebabCase_keeps_non_separators ascii_tables (js "user@Name_ID") eq_refl)).
Defined.

(* ================================================================== *)
(** ** The shape of the output *)

Section JoinShape.
Variable c : N.

Lemma starts_with_free (w t : jsstring) : free_of c w -> starts_with c (w ++ t) = false.
Proof.
  intros [Hne Hw]. destruct w as [|x w]; [congruence|].
  simpl. apply negb_true_iff, (forallb_head _ _ _ Hw).
Qed.

Lemma ends_with_app (w t : jsstring) : t <> [] -> ends_with c (w ++ t) = ends_with c t.
Proof.
  intros Ht. induction w as [|x w IH]; [reflexivity|].
  simpl. destruct (w ++ t) eqn:Hwt; [|exact IH].
  apply app_eq_nil in Hwt as [_ Hwt]. congruence.
Qed.

Lemma ends_with_free (w : jsstring) :
  forallb (fun x => negb (x =? c)) w = true -> ends_with c w = false.
Proof.
  induction w as [|x w IH]; [reflexivity|]. intros H.
  pose proof (forallb_head _ _ _ H) as Hx. apply negb_true_iff in Hx.
  simpl. destruct w; [exact Hx|]. apply IH, (forallb_tail _ _ _ H).
Qed.

Lemma has_double_free (w t : jsstring) :
  forallb (fun x => negb (x =? c)) w = true -> has_double c (w ++ t) = has_double c t.
Proof.
  induction w as [|x w IH]; [reflexivity|]. intros H.
  pose proof (forallb_head _ _ _ H) as Hx. apply negb_true_iff in Hx.
  simpl. rewrite Hx. apply IH, (forallb_tail _ _ _ H).
Qed.

(** Words joined by [c] neither begin nor end with [c] and hold no two [c]
    in a row. *)
Lemma join_shape (ws : list jsstring) :
  Forall (free_of c) ws ->
  starts_with c (join [c] ws) = false
  /\ ends_with c (join [c] ws) = false
  /\ has_double c (join [c] ws) = false.
Proof.
  induction 1 as [|w ws Hw Hws [IHs [IHe IHd]]]; [repeat split; reflexivity|].
  destruct ws as [|w' ws'].
  - simpl join. pose proof (starts_with_free [] Hw) as Hs.
    pose proof (has_double_free w [] (proj2 Hw)) as Hd.
    rewrite app_nil_r in Hs, Hd.
    rewrite Hs, Hd, (ends_with_free w (proj2 Hw)). repeat split; reflexivity.
  - assert (Hne : join [c] (w' :: ws') <> []).
    { inversion Hws as [|? ? [Hne' _] _]; subst. destruct w'; [congruence|].
      destruct ws'; discriminate. }
    change (join [c] (w :: w' :: ws')) with (w ++ [c] ++ join [c] (w' :: ws')).
    rewrite (starts_with_free _ Hw), !ends_with_app, IHe by (exact Hne || discriminate).
    rewrite has_double_free by apply Hw.
    cbn [app has_double]. rewrite IHs, IHd, andb_false_r. repeat split; reflexivity.
Qed.

End JoinShape.

Lemma alnum_free_of_dot (w : jsstring) :
  w <> [] -> forallb is_alnum w = true -> free_of DOT w.
Proof.
  intros Hne Hw. split; [exact Hne|].
  apply (forallb_weaken is_alnum); [|exact Hw]. exact alnum_not_dot.
Qed.

Lemma piece_free_of_hyphen (w : jsstring) : piece w -> free_of HYPHEN w.
Proof.
  intros [Hne Hw]. split; [exact Hne|].
  apply (forallb_weaken (fun x => negb (is_sep x))); [|exact Hw].
  intros x Hx. apply negb_true_iff in Hx. apply negb_true_iff.
  apply not_sep_not_hyphen, Hx.
Qed.

Lemma not_sep_kebab_unit (c : N) : negb (is_sep c) = true -> kebab_unit c = true.
Proof.
  intros H. apply negb_true_iff in H. unfold kebab_unit.
  destruct (is_space c) eqn:Hs; [rewrite (space_is_sep _ Hs) in H; discriminate|].
  destruct (c =? UNDERSCORE) eqn:Hu; [|reflexivity]. exfalso. class_facts.
Qed.

Section Shapes.
Context {E : CaseTables}.

(** X8. The output of [dotCase] never begins with a dot, never ends with
    one and never holds two dots in a row, whatever the input. *)
Theorem dotCase_output_shape (v : value) :
  starts_with DOT (dotCase v) = false
  /\ ends_with DOT (dotCase v) = false
  /\ has_double DOT (dotCase v) = false.
Proof.
  destruct v as [| | b | n | s |]; try (repeat split; reflexivity).
  rewrite dotCase_words. apply join_shape, Forall_forall. intros w Hw.
  apply filter_In in Hw as [Hin Hne]. apply in_map_iff in Hin as [w0 [<- _]].
  apply alnum_free_of_dot; [|apply lowered_alnum_alnum].
  intros H. unfold lowered_alnum in H. rewrite H in Hne. discriminate.
Qed.

(** X9. With a sound lowercasing, the output of [toKebabCase] never begins
    or ends with a hyphen, holds no two hyphens in a row, no white space, no
    underscore and no letter of [A-Z]; and the last pass of the function,
    which trims hyphens at both ends, never has anything to remove. *)
Theorem toKebabCase_output_shape (sound : lowering_sound E) (v : value) :
  (starts_with HYPHEN (toKebabCase v) = false
   /\ ends_with HYPHEN (toKebabCase v) = false
   /\ has_double HYPHEN (toKebabCase v) = false)
  /\ forallb kebab_unit (toKebabCase v) = true
  /\ no_upper (toKebabCase v) = true
  /\ (forall s, strip_hyphens (join [HYPHEN] (filter nonempty (kebab_words s)))
               = join [HYPHEN] (filter nonempty (kebab_words s))).
Proof.
  assert (Hwords : forall s, Forall kebab_word (filter nonempty (kebab_words s))).
  { intros s. unfold kebab_words. rewrite split_replace_runs.
    apply (kebab_words_lowered sound), Forall_forall. intros w Hw.
    apply (split_pieces_clean is_sep _ _ Hw). }
  assert (Hpieces : forall s, Forall piece (filter nonempty (kebab_words s))).
  { intros s. apply (Forall_impl piece (P := kebab_word)); [|apply Hwords].
    intros f Hf. apply Hf. }
  assert (Htrim : forall s, strip_hyphens (join [HYPHEN] (filter nonempty (kebab_words s)))
                            = join [HYPHEN] (filter nonempty (kebab_words s))).
  { intros s. apply strip_hyphens_join_pieces, Hpieces. }
  split; [|split; [|split]]; [| | |exact Htrim];
    (destruct v as [| | b | n | s |]; try (repeat split; reflexivity));
    (destruct s as [|c0 s0]; [repeat split; reflexivity|]);
    unfold toKebabCase; cbn [is_string typeof falsy nonempty negb orb];
    rewrite Htrim.
  - apply join_shape. apply (Forall_impl _ (P := piece)); [|apply Hpieces].
    exact piece_free_of_hyphen.
  - apply forallb_join; [reflexivity|].
    apply (Forall_impl _ (P := piece)); [|apply Hpieces].
    intros w [_ Hw]. apply (forallb_weaken (fun x => negb (is_sep x))); [|exact Hw].
    exact not_sep_kebab_unit.
  - apply forallb_join; [reflexivity|].
    apply (Forall_impl _ (P := kebab_word)); [|apply Hwords]. intros f Hf. apply Hf.
Qed.

End Shapes.

Lemma toKebabCase_output_shape_witness :
  lowering_sound ascii_tables
  /\ ends_with HYPHEN (@toKebabCase ascii_tables (VString (js "__Screen  name--"))) = false
  /\ @toKebabCase ascii_tables (VString (js "__Screen  name--")) = js "screen-name".
Proof.
  split; [exact ascii_tables_sound|]. split; [|reflexivity].
  exact (proj1 (proj2 (proj1 (@toKebabCase_output_shape ascii_tables ascii_tables_sound
                                 (VString (js "__Screen  name--")))))).
Defined.

(* ================================================================== *)
(** ** Separators at the ends and in the middle *)

Lemma words_skip_run (p : N -> bool) (run s : jsstring) :
  forallb p run = true -> words p (run ++ s) = words p s.
Proof.
  unfold words. induction run as [|c run IH]; intros H; [reflexivity|].
  simpl. rewrite (forallb_head _ _ _ H). apply IH, (forallb_tail _ _ _ H).
Qed.

Lemma words_drop_run (p : N -> bool) (s run : jsstring) :
  forallb p run = true -> words p (s ++ run) = words p s.
Proof.
  unfold words. destruct run as [|c run]; intros H; [rewrite app_nil_r; reflexivity|].
  rewrite (words_go_app_sep p s c run (forallb_head _ _ _ H)).
  unfold words. rewrite (@words_go_all_sep p run (forallb_tail _ _ _ H)).
  apply app_nil_r.
Qed.

Lemma words_app_sep (p : N -> bool) (u : jsstring) (c : N) (v : jsstring) :
  p c = true -> words p (u ++ c :: v) = words p u ++ words p v.
Proof. intros Hc. apply (words_go_app_sep p u c v Hc). Qed.

Lemma insert_case_boundaries_drop_run (s run : jsstring) :
  forallb is_sep run = true ->
  insert_case_boundaries (s ++ run) = insert_case_boundaries s ++ run.
Proof.
  destruct run as [|c run]; intros H.
  - rewrite !app_nil_r. reflexivity.
  - pose proof (forallb_head _ _ _ H) as Hc.
    rewrite (insert_case_boundaries_app s c run (sep_not_lower _ Hc) (sep_not_upper _ Hc)).
    rewrite <- (app_nil_r run) at 1.
    rewrite (insert_case_boundaries_run run [] (forallb_tail _ _ _ H)), app_nil_r.
    reflexivity.
Qed.

Lemma join_cons_more (c : N) (w : jsstring) (l : list jsstring) :
  l <> [] -> join [c] (w :: l) = w ++ [c] ++ join [c] l.
Proof. destruct l; [congruence|reflexivity]. Qed.

Lemma join_app_more (c : N) (a b : list jsstring) :
  a <> [] -> b <> [] -> join [c] (a ++ b) = join [c] a ++ [c] ++ join [c] b.
Proof.
  intros Ha Hb. induction a as [|w a IH]; [congruence|].
  destruct a as [|w2 a].
  - simpl app. apply join_cons_more, Hb.
  - change ((w :: w2 :: a) ++ b) with (w :: ((w2 :: a) ++ b)).
    rewrite join_cons_more by discriminate.
    rewrite IH by discriminate.
    rewrite (join_cons_more c w (l := w2 :: a)) by discriminate.
    rewrite <- !app_assoc. reflexivity.
Qed.

Lemma nonempty_join (c : N) (l : list jsstring) :
  Forall (fun w => w <> []) l -> l <> [] -> nonempty (join [c] l) = true.
Proof.
  intros Hl Hne. destruct l as [|w l]; [congruence|].
  inversion Hl as [|? ? Hw _]; subst. destruct w; [congruence|].
  destruct l; reflexivity.
Qed.

(** Joining two lists of words is joining their joins, an empty one left
    out. *)
Lemma join_app_pieces (c : N) (a b : list jsstring) :
  Forall (fun w => w <> []) a -> Forall (fun w => w <> []) b ->
  join [c] (a ++ b) = join [c] (filter nonempty [join [c] a; join [c] b]).
Proof.
  intros Ha Hb. destruct a as [|w a].
  - simpl app. change (filter nonempty [join [c] []; join [c] b])
      with (filter nonempty [join [c] b]).
    rewrite join_filter_singleton. reflexivity.
  - destruct b as [|w' b].
    + rewrite app_nil_r. cbn [filter].
      rewrite (nonempty_join c Ha) by discriminate. reflexivity.
    + rewrite join_app_more by discriminate. cbn [filter].
      rewrite (nonempty_join c Ha), (nonempty_join c Hb) by discriminate.
      reflexivity.
Qed.

Lemma filter_nonempty_all (l : list jsstring) : Forall (fun w => w <> []) (filter nonempty l).
Proof.
  apply Forall_forall. intros w Hw. apply filter_In in Hw as [_ Hne].
  destruct w; [discriminate|discriminate].
Qed.

Section Ends.
Context {E : CaseTables}.

Lemma lowered_nonempty_words (l : list jsstring) :
  filter nonempty (List.map toLowerCase l)
  = filter nonempty (List.map toLowerCase (filter nonempty l)).
Proof.
  induction l as [|w l IH]; [reflexivity|].
  destruct w as [|c w]; [exact IH|].
  cbn [filter nonempty List.map]. rewrite IH. reflexivity.
Qed.

(** [toKebabCase] by the words of its input, once the case boundaries are
    in. *)
Lemma toKebabCase_words (s : jsstring) :
  toKebabCase (VString s) =
  strip_hyphens
    (join [HYPHEN]
       (filter nonempty
          (List.map toLowerCase (words is_sep (insert_case_boundaries s))))).
Proof. rewrite toKebabCase_pieces, lowered_nonempty_words, filter_split. reflexivity. Qed.

(** X10. Separators before the first word and after the last one change
    nothing: each converter returns for [run ++ s] and for [s ++ run] what
    it returns for [s], when [run] holds white space, hyphens and
    underscores only. *)
Theorem separators_at_the_ends_are_ignored (run s : jsstring) :
  forallb is_sep run = true ->
  (toKebabCase (VString (run ++ s)) = toKebabCase (VString s)
   /\ toKebabCase (VString (s ++ run)) = toKebabCase (VString s))
  /\ (camelCase (VString (run ++ s)) = camelCase (VString s)
      /\ camelCase (VString (s ++ run)) = camelCase (VString s))
  /\ (dotCase (VString (run ++ s)) = dotCase (VString s)
      /\ dotCase (VString (s ++ run)) = dotCase (VString s)).
Proof.
  intros H. repeat split.
  - rewrite !toKebabCase_words, (insert_case_boundaries_run run s H).
    rewrite (words_skip_run is_sep run _ H). reflexivity.
  - rewrite !toKebabCase_words, (insert_case_boundaries_drop_run s run H).
    rewrite (words_drop_run is_sep _ run H). reflexivity.
  - rewrite !camelCase_words, (words_skip_run is_sep run s H). reflexivity.
  - rewrite !camelCase_words, (words_drop_run is_sep s run H). reflexivity.
  - rewrite !dotCase_words, (words_skip_run is_sep run s H). reflexivity.
  - rewrite !dotCase_words, (words_drop_run is_sep s run H). reflexivity.
Qed.

End Ends.

Lemma separators_at_the_ends_are_ignored_witness :
  forallb is_sep (js " -_ ") = true
  /\ @camelCase ascii_tables (VString (js " -_ " ++ js "hello world"))
     = @camelCase ascii_tables (VString (js "hello world"))
  /\ @toKebabCase ascii_tables (VString (js "userName" ++ js " -_ "))
     = @toKebabCase ascii_tables (VString (js "userName")).
Proof.
  split; [reflexivity|]. split.
  - exact (proj1 (proj1 (proj2 (@separators_at_the_ends_are_ignored ascii_tables
                                  (js " -_ ") (js "hello world") eq_refl)))).
  - exact (proj2 (proj1 (@separators_at_the_ends_are_ignored ascii_tables
                           (js " -_ ") (js "userName") eq_refl))).
Defined.

Section Middle.
Context {E : CaseTables}.

Lemma dotCase_joined (s : jsstring) :
  dotCase (VString s) =
  join [DOT] (filter nonempty (List.map lowered_alnum (words is_sep s))).
Proof. apply dotCase_words. Qed.

(** With a sound lowercasing the last pass of [toKebabCase] removes
    nothing. *)
Lemma toKebabCase_joined (sound : lowering_sound E) (s : jsstring) :
  toKebabCase (VString s) =
  join [HYPHEN]
    (filter nonempty (List.map toLowerCase (words is_sep (insert_case_boundaries s)))).
Proof.
  rewrite toKebabCase_words. apply strip_hyphens_join_pieces.
  apply (Forall_impl piece (P := kebab_word)); [intros f Hf; apply Hf|].
  apply (kebab_words_lowered sound).
  apply pieces_sep_free, words_pieces.
Qed.

(** X11. A separator in the middle splits the work: [dotCase] of
    [u ++ c :: v] is [dotCase u] and [dotCase v] with one dot between them,
    or the one of the two that is not empty; with a sound lowercasing,
    [toKebabCase] does the same with a hyphen. *)
Theorem conversion_splits_at_a_separator
  (sound : lowering_sound E) (u : jsstring) (c : N) (v : jsstring) :
  is_sep c = true ->
  dotCase (VString (u ++ c :: v))
  = join [DOT] (filter nonempty [dotCase (VString u); dotCase (VString v)])
  /\ toKebabCase (VString (u ++ c :: v))
     = join [HYPHEN] (filter nonempty [toKebabCase (VString u); toKebabCase (VString v)]).
Proof.
  intros Hc. split.
  - rewrite !dotCase_joined, (words_app_sep is_sep u c v Hc).
    rewrite map_app, filter_app.
    apply join_app_pieces; apply filter_nonempty_all.
  - rewrite !(toKebabCase_joined sound).
    rewrite (insert_case_boundaries_app u c v (sep_not_lower _ Hc) (sep_not_upper _ Hc)).
    rewrite (words_app_sep is_sep _ c _ Hc), map_app, filter_app.
    apply join_app_pieces; apply filter_nonempty_all.
Qed.

End Middle.

Lemma conversion_splits_at_a_separator_witness :
  lowering_sound ascii_tables /\ is_sep UNDERSCORE = true
  /\ @dotCase ascii_tables (VString (js "user name" ++ UNDERSCORE :: js "ID"))
     = js "user.name.id"
  /\ @toKebabCase ascii_tables (VString (js "userName" ++ UNDERSCORE :: js "--"))
     = js "user-name".
Proof.
  split; [exact ascii_tables_sound|]. split; [reflexivity|]. split.
  - exact (proj1 (@conversion_splits_at_a_separator ascii_tables ascii_tables_sound
                    (js "user name") UNDERSCORE (js "ID") eq_refl)).
  - exact (proj2 (@conversion_splits_at_a_separator ascii_tables ascii_tables_sound
                    (js "userName") UNDERSCORE (js "--") eq_refl)).
Defined.

(* ================================================================== *)
(** ** Case of the input, and converters in a row *)

Lemma lower_unit_is_alnum (c : N) : is_alnum (lower_unit c) = is_alnum c.
Proof.
  unfold lower_unit. destruct (is_upper c) eqn:Hu; [|reflexivity].
  destruct (is_alnum c) eqn:Ha; class_facts.
Qed.

Lemma words_go_lowered (s : jsstring) :
  forall cur,
    words_go is_sep (ascii_lower cur) (ascii_lower s)
    = List.map ascii_lower (words_go is_sep cur s).
Proof.
  induction s as [|c t IH]; intros cur; simpl.
  - destruct cur; reflexivity.
  - rewrite lower_unit_sep. destruct (is_sep c).
    + rewrite map_app. change (ascii_lower []) with (@nil N) in IH.
      rewrite <- (IH []). destruct cur; reflexivity.
    + rewrite <- IH. unfold ascii_lower. rewrite map_app. reflexivity.
Qed.

Lemma lowered_alnum_lower (w : jsstring) : lowered_alnum (ascii_lower w) = lowered_alnum w.
Proof.
  unfold lowered_alnum, strip_non_alnum, ascii_lower.
  induction w as [|c w IH]; [reflexivity|]. simpl.
  rewrite lower_unit_is_alnum. destruct (is_alnum c); simpl; rewrite IH, ?lower_unit_idem;
    reflexivity.
Qed.

Lemma ascii_lower_fixed (w : jsstring) : no_upper w = true -> ascii_lower w = w.
Proof.
  unfold no_upper. induction w as [|c w IH]; simpl; [reflexivity|]. intros H.
  apply andb_true_iff in H as [Hc Hw]. apply negb_true_iff in Hc.
  rewrite (lower_unit_fixed _ Hc), (IH Hw). reflexivity.
Qed.

Lemma dot_units_ascii (out : jsstring) :
  forallb dot_output_unit out = true -> forallb is_ascii out = true.
Proof.
  apply forallb_weaken. intros c Hc. unfold dot_output_unit in Hc. class_facts.
Qed.

Lemma no_upper_no_boundary (w : jsstring) : no_upper w = true -> has_case_boundary w = false.
Proof.
  unfold no_upper. induction w as [|c w IH]; [reflexivity|]. intros H.
  simpl. rewrite (IH (forallb_tail _ _ _ H)), orb_false_r.
  destruct w as [|d w]; simpl; [apply andb_false_r|].
  pose proof (forallb_head _ _ _ (forallb_tail _ _ _ H)) as Hd.
  apply negb_true_iff in Hd. rewrite Hd. apply andb_false_r.
Qed.

Section CaseAndChains.
Context {E : CaseTables}.

Lemma dotCase_lowered (s : jsstring) :
  dotCase (VString (ascii_lower s)) = dotCase (VString s).
Proof.
  pose proof (words_go_lowered s []) as H. change (ascii_lower []) with (@nil N) in H.
  rewrite !dotCase_joined. unfold words. rewrite H, map_map.
  rewrite (map_ext _ _ lowered_alnum_lower). reflexivity.
Qed.

(** X12. [dotCase] does not look at the case of its input: two strings that
    are equal once their ASCII letters are lowercased convert to the same
    output. *)
Theorem dotCase_ignores_case (s s' : jsstring) :
  ascii_lower s = ascii_lower s' -> dotCase (VString s) = dotCase (VString s').
Proof.
  intros H. rewrite <- (dotCase_lowered s), <- (dotCase_lowered s'), H. reflexivity.
Qed.

Lemma dotCase_sep_free (v : value) : sep_free (dotCase v) = true.
Proof.
  apply (forallb_weaken dot_output_unit); [|apply dotCase_units].
  intros c Hc. destruct (dot_unit_cases c Hc) as [-> _]. reflexivity.
Qed.

Lemma dotCase_no_upper (v : value) : no_upper (dotCase v) = true.
Proof.
  apply (forallb_weaken dot_output_unit); [|apply dotCase_units].
  intros c Hc. destruct (dot_unit_cases c Hc) as [_ [-> _]]. reflexivity.
Qed.

(** X13. One converter after another.  [dotCase] of a [camelCase] output is
    that output lowercased, in one word; [camelCase] of a [dotCase] output
    is that output without its dots; [toKebabCase] of a [dotCase] output is
    that output unchanged, dots included. *)
Theorem converters_in_a_row (v : value) :
  dotCase (VString (camelCase v)) = ascii_lower (camelCase v)
  /\ camelCase (VString (dotCase v)) = filter (fun c => negb (is_dot c)) (dotCase v)
  /\ toKebabCase (VString (dotCase v)) = dotCase v.
Proof.
  split; [|split].
  - pose proof (camelCase_alnum v) as Ha.
    destruct (one_word_in_camel_and_dot (camelCase v) (alnum_sep_free _ Ha)) as [_ ->].
    rewrite dot_word_shape. unfold strip_non_alnum. rewrite (filter_all _ _ Ha).
    reflexivity.
  - destruct (one_word_in_camel_and_dot (dotCase v) (dotCase_sep_free v)) as [-> _].
    rewrite camel_word_shape, <- (undotted (dotCase v) (dotCase_units v)).
    unfold camel_shape.
    assert (Hu : no_upper (strip_non_alnum (dotCase v)) = true).
    { unfold strip_non_alnum, no_upper. apply forallb_forall. intros c Hc.
      apply filter_In in Hc as [Hc _].
      pose proof (dotCase_no_upper v) as Hn. unfold no_upper in Hn.
      rewrite forallb_forall in Hn. apply Hn, Hc. }
    rewrite (ascii_lower_fixed _ Hu).
    destruct (strip_non_alnum (dotCase v)) as [|c r]; [reflexivity|].
    simpl. pose proof (forallb_head _ _ _ Hu) as Hc. apply negb_true_iff in Hc.
    rewrite (lower_unit_fixed _ Hc). reflexivity.
  - rewrite toKebabCase_single_word.
    + apply ascii_lower_fixed, dotCase_no_upper.
    + apply dot_units_ascii, dotCase_units.
    + apply dotCase_sep_free.
    + apply no_upper_no_boundary, dotCase_no_upper.
Qed.

End CaseAndChains.

Lemma dotCase_ignores_case_witness :
  ascii_lower (js "Hello World") = ascii_lower (js "hELLO wORLD")
  /\ @dotCase ascii_tables (VString (js "Hello World"))
     = @dotCase ascii_tables (VString (js "hELLO wORLD")).
Proof.
  split; [reflexivity|].
  exact (@dotCase_ignores_case ascii_tables (js "Hello World") (js "hELLO wORLD") eq_refl).
Defined.

(* ================================================================== *)
(** ** The test loop *)

Lemma jsstring_eqb_eq (a b : jsstring) : jsstring_eqb a b = true <-> a = b.
Proof.
  revert b. induction a as [|x a IH]; intros [|y b]; simpl; split; intros H;
    try reflexivity; try discriminate.
  - apply andb_true_iff in H as [Hx Hab]. apply N.eqb_eq in Hx.
    apply IH in Hab. subst. reflexivity.
  - injection H as -> ->. rewrite N.eqb_refl. apply IH. reflexivity.
Qed.

(** X4. The loop of lines 133-146 counts every test case once, whatever the
    table: the two counters grow together by the number of cases, and
    [failed] grows by the number of cases whose result is not the expected
    string. *)
Theorem test_loop_counts_each_case_once
  (E : CaseTables) (tcs : list (value * jsstring)) (t : tally) :
  (passed (fold_left run_test tcs t) + failed (fold_left run_test tcs t)
   = passed t + failed t + List.length tcs)%nat
  /\ (failed (fold_left run_test tcs t) = failed t + List.length (mismatches tcs))%nat
  /\ Forall (fun tc => camelCase (fst tc) <> snd tc) (mismatches tcs).
Proof.
  split; [|split].
  - revert t. induction tcs as [|tc tcs IH]; intros t; simpl; [lia|].
    rewrite IH. unfold run_test.
    destruct (jsstring_eqb (camelCase (fst tc)) (snd tc)); simpl; lia.
  - revert t. induction tcs as [|tc tcs IH]; intros t; simpl; [lia|].
    rewrite IH. unfold run_test.
    destruct (jsstring_eqb (camelCase (fst tc)) (snd tc)); simpl; lia.
  - apply Forall_forall. intros tc Htc. apply filter_In in Htc as [_ Hne].
    apply negb_true_iff in Hne. intros Heq. apply jsstring_eqb_eq in Heq.
    congruence.
Qed.

(* ================================================================== *)
(** ** Later words of [camelCase] *)

Lemma map_indexed_app (A B : Type) (f : A -> nat -> B) (a b : list A) :
  forall i, map_indexed f i (a ++ b)
            = map_indexed f i a ++ map_indexed f (i + List.length a) b.
Proof.
  induction a as [|x a IH]; intros i; simpl.
  - rewrite Nat.add_0_r. reflexivity.
  - rewrite IH, Nat.add_succ_r. reflexivity.
Qed.

Lemma map_indexed_later (l : list jsstring) :
  forall i, i <> 0%nat ->
    map_indexed camel_shape i l = List.map (fun w => camel_shape w 1) l.
Proof.
  induction l as [|w l IH]; intros i Hi; [reflexivity|]. simpl.
  rewrite IH by discriminate. unfold camel_shape.
  destruct i; [congruence|]. reflexivity.
Qed.

Section LaterWords.
Context {E : CaseTables}.

(** X14. Past the first word, [camelCase] converts what follows a separator
    by itself: when [u] holds a word, [camelCase] of [u ++ c :: v] is
    [camelCase u] followed by the words of [v], each converted as a later
    word (first character uppercased, the rest lowercased). *)
Theorem camelCase_splits_at_a_separator (u : jsstring) (c : N) (v : jsstring) :
  is_sep c = true ->
  filteredWords (trim u) <> [] ->
  camelCase (VString (u ++ c :: v))
  = camelCase (VString u)
    ++ join [] (filter nonempty
                  (List.map (fun w => camel_word w 1) (filteredWords (trim v)))).
Proof.
  intros Hc Hu. rewrite !filteredWords_words, !words_trim in *.
  rewrite (map_ext _ _ (fun w => camel_word_shape w 1)).
  rewrite !camelCase_words, (words_app_sep is_sep u c v Hc).
  rewrite map_indexed_app, filter_app, !join_nil_concat, concat_app.
  f_equal. rewrite map_indexed_later; [reflexivity|].
  destruct (words is_sep u); [congruence|discriminate].
Qed.

End LaterWords.

Lemma camelCase_splits_at_a_separator_witness :
  is_sep HYPHEN = true /\ filteredWords (trim (js "user")) <> []
  /\ @camelCase ascii_tables (VString (js "user" ++ HYPHEN :: js "first NAME"))
     = js "userFirstName".
Proof.
  split; [reflexivity|]. split; [discriminate|].
  refine (@camelCase_splits_at_a_separator ascii_tables
            (js "user") HYPHEN (js "first NAME") eq_refl _).
  discriminate.
Defined.

(* ================================================================== *)
(** ** How long the output can be *)

Lemma spread_app (a b : list jsstring) : spread (a ++ b) = (spread a + spread b)%nat.
Proof. induction a as [|w a IH]; simpl; [reflexivity|]. rewrite IH. lia. Qed.

Lemma spread_emit (cur : jsstring) : (spread (emit cur) <= S (List.length cur))%nat.
Proof. destruct cur; simpl; lia. Qed.

Lemma spread_words_go (p : N -> bool) (s : jsstring) :
  forall cur, (spread (words_go p cur s) <= S (List.length cur + List.length s))%nat.
Proof.
  induction s as [|c t IH]; intros cur; simpl.
  - pose proof (spread_emit cur). lia.
  - destruct (p c).
    + rewrite spread_app. pose proof (spread_emit cur). specialize (IH []).
      simpl in IH. lia.
    + specialize (IH (cur ++ [c])). rewrite length_app in IH. simpl in IH. lia.
Qed.

Lemma length_join (c : N) (l : list jsstring) :
  (List.length (join [c] l) <= Nat.pred (spread l))%nat.
Proof.
  induction l as [|w l IH]; [simpl; lia|].
  destruct l as [|w' l'].
  - simpl. lia.
  - change (join [c] (w :: w' :: l')) with (w ++ [c] ++ join [c] (w' :: l')).
    rewrite !length_app. cbn [spread List.length Nat.pred Nat.add] in *. lia.
Qed.

Lemma spread_shrunk (g : jsstring -> jsstring) (l : list jsstring) :
  (forall w, (List.length (g w) <= List.length w)%nat) ->
  (spread (filter nonempty (List.map g l)) <= spread l)%nat.
Proof.
  intros Hg. induction l as [|w l IH]; [simpl; lia|].
  simpl. specialize (Hg w). destruct (nonempty (g w)); simpl; lia.
Qed.

Lemma length_lowered_alnum (w : jsstring) :
  (List.length (lowered_alnum w) <= List.length w)%nat.
Proof.
  unfold lowered_alnum, ascii_lower, strip_non_alnum. rewrite length_map.
  apply filter_length_le.
Qed.

Lemma length_ascii_lower (w : jsstring) : List.length (ascii_lower w) = List.length w.
Proof. apply length_map. Qed.

Lemma spread_lowered (ws : list jsstring) :
  spread (List.map ascii_lower ws) = spread ws.
Proof.
  induction ws as [|w ws IH]; simpl; [reflexivity|].
  rewrite IH, length_ascii_lower. reflexivity.
Qed.

Lemma length_insert_case_boundaries (s : jsstring) :
  (S (List.length (insert_case_boundaries s)) <= 2 * List.length s + 1)%nat.
Proof.
  induction s as [|x t IH]; [simpl; lia|].
  rewrite insert_case_boundaries_cons.
  destruct (is_lower x && starts_upper t); simpl in *; lia.
Qed.

Section Lengths.
Context {E : CaseTables}.

(** X15. [camelCase] and [dotCase] never return more code units than the
    string they are given; [toKebabCase], which inserts hyphens at case
    boundaries, returns at most twice as many for an ASCII string. *)
Theorem output_length_bounds (s : jsstring) :
  (List.length (camelCase (VString s)) <= List.length s)%nat
  /\ (List.length (dotCase (VString s)) <= List.length s)%nat
  /\ (forallb is_ascii s = true ->
      (List.length (toKebabCase (VString s)) <= 2 * List.length s)%nat).
Proof.
  split; [|split].
  - pose proof (lowered_camelCase s) as H.
    apply (f_equal (@List.length N)) in H. rewrite length_ascii_lower in H.
    rewrite H. apply length_lowered_alnum.
  - rewrite dotCase_joined.
    pose proof (length_join DOT
                  (filter nonempty (List.map lowered_alnum (words is_sep s)))) as Hj.
    pose proof (spread_shrunk lowered_alnum (words is_sep s) length_lowered_alnum) as Hs.
    pose proof (spread_words_go is_sep s []) as Hw. unfold words in *. simpl in Hw. lia.
  - intros Ha. rewrite (toKebabCase_ascii s Ha).
    set (ws := words is_sep (insert_case_boundaries s)).
    pose proof (length_join HYPHEN (List.map ascii_lower ws)) as Hj.
    pose proof (spread_lowered ws) as Hs.
    pose proof (spread_words_go is_sep (insert_case_boundaries s) []) as Hw.
    pose proof (length_insert_case_boundaries s) as Hb.
    unfold ws, words in *. simpl in Hw. lia.
Qed.

End Lengths.

Lemma output_length_bounds_witness :
  forallb is_ascii (js "aBcD") = true
  /\ (List.length (@toKebabCase ascii_tables (VString (js "aBcD")))
      <= 2 * List.length (js "aBcD"))%nat
  /\ @toKebabCase ascii_tables (VString (js "aBcD")) = js "a-bc-d".
Proof.
  split; [reflexivity|]. split; [|reflexivity].
  exact (proj2 (proj2 (@output_length_bounds ascii_tables (js "aBcD"))) eq_refl).
Defined.

(* ================================================================== *)
(** ** Where words begin and end *)











Section WordBoundaries.
Context {E : CaseTables}.



End WordBoundaries.


(* ================================================================== *)
(** ** The first word that is left *)

(** C9. The first cleaned word of ["@ hello"] is ["hello"], which the
    first-word rule would return as ["hello"], as [camelCase] does when it
    is given ["hello"] alone.  The code picks the first word by its index
    among the separator-delimited words, before those that clean to nothing
    are dropped: here index 0 is ["@"], no word gets the first-word rule,
    and the output is ["Hello"]. *)
Theorem camelCase_first_cleaned_word_capitalised (E : CaseTables) :
  tokens (js "@ hello") = [js "hello"]
  /\ camelCase (VString (js "@ hello")) = js "Hello"
  /\ camelCase (VString (js "hello")) = js "hello".
Proof. repeat split; reflexivity. Qed.
